(** * use-model-validation: value normalisation and rule-based validation

    A shallow embedding of [src/lib/normalize-value.ts] and
    [src/lib/validate-data.ts], together with the parts of the ECMAScript
    runtime these two functions call ([typeof], [String.prototype.trim],
    [parseFloat], [Array.isArray], [instanceof], [Array.prototype.indexOf],
    [Array.prototype.forEach], [for-in]).

    Conventions.
    - A JavaScript string is its sequence of UTF-16 code units, [list N].
    - A JavaScript number is an IEEE 754 binary64 datum, [spec_float].
    - A raw field value is any JavaScript value, among them a Proxy, whose
      inspection can throw, and [document.all].
    - [data] and [errors] are objects that inherit from [Object.prototype]
      and are given by their own properties, a [gmap]: reading [data]
      finds the inherited properties too, and writing to [errors] under
      the name [__proto__] meets the inherited setter.  The rule-set,
      whose enumeration order is observable through the side effects of
      the rules, is the association list of its own properties in
      [for-in] order.
    - A rule evaluator is foreign code: it reads and writes an abstract
      world [W] and either returns or throws.  What it returns is a
      result object of the declared type, or nothing.  It is handed the
      normalized value to read; the objects [validate] works on ([data],
      the rule-set, the normalized value, the result under construction)
      are not part of [W].
    - The built-in objects are the ones the language defines: nothing has
      been added to or changed in [Object.prototype], [String.prototype]
      or the global functions. *)

From Stdlib Require Import ZArith NArith Lia String Ascii List.
From Stdlib Require Import Floats.SpecFloat.
From stdpp Require Import base option list gmap.

Local Open Scope Z_scope.

(** ** JavaScript strings *)

Module JSString.

Abbreviation jsstring := (list N).

(** The code units of an ASCII literal. *)
Definition js (s : string) : jsstring :=
  List.map N_of_ascii (list_ascii_of_string s).

(** WhiteSpace and LineTerminator code points (ECMA-262, 12.2 and 12.3):
    TAB, LF, VT, FF, CR, SP, NBSP, the Unicode Space_Separator category,
    LS, PS and ZWNBSP.  All of them are single code units. *)
Definition is_white_space (c : N) : bool :=
  ((9 <=? c) && (c <=? 13) || (c =? 32) || (c =? 160) || (c =? 5760)
   || (8192 <=? c) && (c <=? 8202) || (c =? 8232) || (c =? 8233)
   || (c =? 8239) || (c =? 8287) || (c =? 12288) || (c =? 65279))%N.

Fixpoint dropWhile {A} (p : A -> bool) (l : list A) : list A :=
  match l with
  | [] => []
  | x :: l' => if p x then dropWhile p l' else l
  end.

(** [String.prototype.trimStart], [trimEnd] and [trim]. *)
Definition trimStart (s : jsstring) : jsstring := dropWhile is_white_space s.
Definition trimEnd (s : jsstring) : jsstring :=
  rev (dropWhile is_white_space (rev s)).
Definition trim (s : jsstring) : jsstring := trimEnd (trimStart s).

(** [s.startsWith(p)], returning the rest of [s] after [p]. *)
Fixpoint strip_prefix (p s : jsstring) : option jsstring :=
  match p, s with
  | [], _ => Some s
  | a :: p', b :: s' => if (a =? b)%N then strip_prefix p' s' else None
  | _ :: _, [] => None
  end.

Definition is_digit (c : N) : bool := ((48 <=? c) && (c <=? 57))%N.

(** The longest run of decimal digits at the start of [s], and the rest. *)
Fixpoint span_digits (s : jsstring) : jsstring * jsstring :=
  match s with
  | c :: s' =>
      if is_digit c then let '(ds, r) := span_digits s' in (c :: ds, r)
      else ([], s)
  | [] => ([], [])
  end.

(** The mathematical value of a run of decimal digits. *)
Definition digits_value (ds : jsstring) : N :=
  fold_left (fun a d => 10 * a + (d - 48))%N ds 0%N.

Fixpoint digits_from (fuel : nat) (n : N) (acc : jsstring) : jsstring :=
  match fuel with
  | O => acc
  | S fuel' =>
      let acc' := (48 + n mod 10)%N :: acc in
      if (n / 10 =? 0)%N then acc' else digits_from fuel' (n / 10)%N acc'
  end.

(** The decimal representation of [n], most significant digit first. *)
Definition digits_of (n : N) : jsstring :=
  digits_from (S (N.to_nat (N.log2 n))) n [].

End JSString.
Export JSString.

(** ** JavaScript numbers *)

Module JSNumber.

(** A Number is a binary64 datum: a signed zero, a signed infinity, the one
    NaN, or [(-1)^s * m * 2^e]. *)
Abbreviation number := spec_float.

Definition prec : Z := 53.
Definition emax : Z := 1024.

Definition NaN : number := S754_nan.

(** [Number::equal]: NaN differs from everything, the two zeros are equal. *)
Definition number_equal (x y : number) : bool := SFeqb x y.

(** The Number nearest to [(-1)^neg * digits * 10^e10], ties to even
    (ECMA-262 RoundMVResult followed by the Number-value conversion). *)
Definition decimal_to_number (neg : bool) (digits : N) (e10 : Z) : number :=
  match digits with
  | N0 => S754_zero neg
  | Npos p =>
      let num := Z.to_pos (Zpos p * 10 ^ Z.max e10 0) in
      let den := Z.to_pos (10 ^ Z.max (- e10) 0) in
      SFdiv prec emax (S754_finite neg num 0) (S754_finite false den 0)
  end.

(** *** [parseFloat] on a string (ECMA-262, 19.2.4) *)

(** An ExponentPart at the start of [s]: [e] or [E], an optional sign and at
    least one digit.  Returns the exponent and the rest, or [None] when [s]
    does not start with a complete ExponentPart. *)
Definition parse_ExponentPart (s : jsstring) : option (Z * jsstring) :=
  match s with
  | c :: s1 =>
      if ((c =? 101) || (c =? 69))%N then
        let '(neg, s2) :=
          match s1 with
          | sg :: s2 =>
              if (sg =? 45)%N then (true, s2)
              else if (sg =? 43)%N then (false, s2)
              else (false, s1)
          | [] => (false, s1)
          end in
        match span_digits s2 with
        | ([], _) => None
        | (ds, rest) =>
            let e := Z.of_N (digits_value ds) in
            Some (if neg then - e else e, rest)
        end
      else None
  | [] => None
  end.

(** The longest prefix of [s] that is a StrUnsignedDecimalLiteral other than
    [Infinity], as its digits and decimal exponent. *)
Definition parse_unsigned_decimal (s : jsstring) : option (N * Z) :=
  let '(ip, s1) := span_digits s in
  let '(fp, s2) :=
    match s1 with
    | c :: s1' => if (c =? 46)%N then span_digits s1' else ([], s1)
    | [] => ([], s1)
    end in
  match ip ++ fp with
  | [] => None
  | ds =>
      let e := match parse_ExponentPart s2 with
               | Some (e, _) => e
               | None => 0
               end in
      Some (digits_value ds, e - Z.of_nat (length fp))
  end.

Definition parseFloat_string (inputString : jsstring) : number :=
  let trimmedString := trimStart inputString in
  let '(neg, unsigned) :=
    match trimmedString with
    | c :: r =>
        if (c =? 45)%N then (true, r)
        else if (c =? 43)%N then (false, r)
        else (false, trimmedString)
    | [] => (false, trimmedString)
    end in
  match strip_prefix (js "Infinity") unsigned with
  | Some _ => S754_infinity neg
  | None =>
      match parse_unsigned_decimal unsigned with
      | Some (digits, e10) => decimal_to_number neg digits e10
      | None => NaN
      end
  end.

(** *** [Number::toString] in radix 10 (ECMA-262, 6.1.6.1.20) *)

(** The [n] with [10^(n-1) <= num/den < 10^n], for [0 < num/den]. *)
Fixpoint scale_below_one (fuel : nat) (n num den : Z) : Z :=
  match fuel with
  | O => n
  | S fuel' =>
      if den <=? 10 * num then n
      else scale_below_one fuel' (n - 1) (10 * num) den
  end.

Definition decimal_order (num den : Z) : Z :=
  if den <=? num then Z.of_nat (length (digits_of (Z.to_N (num / den))))
  else scale_below_one 400 0 num den.

(** Step 5 for one value of [k]: the [k]-digit decimals just below and just
    above [num/den]; a candidate is kept when it converts back to [x], the
    nearer of two candidates is preferred, the even one on a tie. *)
Definition shortest_at (x : number) (num den n k : Z) : option (N * Z) :=
  let sh := k - n in
  let num' := num * 10 ^ Z.max sh 0 in
  let den' := den * 10 ^ Z.max (- sh) 0 in
  let lo := num' / den' in
  let r := num' mod den' in
  let below := (Z.to_N lo, n) in
  let above :=
    if lo + 1 <? 10 ^ k then (Z.to_N (lo + 1), n)
    else (Z.to_N (10 ^ (k - 1)), n + 1) in
  let back '(s, n') := number_equal (decimal_to_number false s (n' - k)) x in
  match back below, back above with
  | true, true =>
      if 2 * r <? den' then Some below
      else if den' <? 2 * r then Some above
      else if Z.even lo then Some below else Some above
  | true, false => Some below
  | false, true => Some above
  | false, false => None
  end.

(** The smallest [k] for which step 5 has a solution.  Seventeen digits
    always identify a binary64 value, and its exact decimal expansion, which
    is a solution, has fewer than 1100 digits: the search is cut there. *)
Fixpoint shortest_from (fuel : nat) (x : number) (num den n k : Z)
  : N * Z * Z :=
  match shortest_at x num den n k with
  | Some (s, n') => (s, n', k)
  | None =>
      match fuel with
      | O => (Z.to_N (num * 10 ^ Z.max (k - n) 0
                      / (den * 10 ^ Z.max (n - k) 0)), n, k)
      | S fuel' => shortest_from fuel' x num den n (k + 1)
      end
  end.

Definition zeros (n : Z) : jsstring := repeat 48%N (Z.to_nat n).

(** Steps 6 to 10: fixed notation for [-6 < n <= 21], exponential
    notation otherwise. *)
Definition format_decimal (s : N) (n k : Z) : jsstring :=
  let ds := digits_of s in
  if (-5 <=? n) && (n <=? 21) then
    if k <=? n then ds ++ zeros (n - k)
    else if 0 <? n then
      firstn (Z.to_nat n) ds ++ js "." ++ skipn (Z.to_nat n) ds
    else js "0." ++ zeros (- n) ++ ds
  else
    let e := n - 1 in
    let exponent :=
      (if e <? 0 then js "e-" else js "e+") ++ digits_of (Z.to_N (Z.abs e)) in
    if k =? 1 then ds ++ exponent
    else firstn 1 ds ++ js "." ++ skipn 1 ds ++ exponent.

Definition Number_toString (x : number) : jsstring :=
  match x with
  | S754_nan => js "NaN"
  | S754_zero _ => js "0"
  | S754_infinity s => (if s then js "-" else []) ++ js "Infinity"
  | S754_finite s m e =>
      let num := Zpos m * 2 ^ Z.max e 0 in
      let den := 2 ^ Z.max (- e) 0 in
      let n := decimal_order num den in
      let '(d, n', k) :=
        shortest_from 1100 (S754_finite false m e) num den n 1 in
      (if s then js "-" else []) ++ format_decimal d n' k
  end.

End JSNumber.
Export JSNumber.

(** ** JavaScript values *)

Module JSValue.

(** Every runtime category a raw field value can belong to.  Object-like
    values carry their identity [id], which is what [===] compares.

    [VArray], [VFile], [VFunction] and [VObject] are the objects of the
    usual kinds, with the prototype chain their constructor gives them:
    a [VFile] has [File.prototype] on it, the others have not.
    [VHTMLDDA] is an object with the [[IsHTMLDDA]] internal slot (ECMA-262,
    B.3.6), which in a browser is [document.all].  [VProxy] is a Proxy
    exotic object (ECMA-262, 10.5) made on [target]; once revoked it has
    lost its target, and [target] is then what it was made on, which
    [typeof] still goes by.

    [handlerType] is the handler of a Proxy as far as the operations used
    here consult it, which is for its [getPrototypeOf] trap:
    - [Revoked]: the proxy was revoked and has no handler any more;
    - [Forwarding]: the handler has no such trap, and the prototype is the
      target's;
    - [TrapReturns found]: the trap returns an object or [null], and
      [found] tells whether the climb from there meets [File.prototype];
    - [TrapThrows e]: the trap, the check the runtime makes of what it
      returns, or the climb from there throws [e].
    The code a trap runs is foreign code; it is represented by its
    outcome only, not by what it does to the world.

    An object whose prototype chain was rearranged by hand, so that a
    Proxy or [File.prototype] stands on it, answers the operations below
    as the Proxy made on that object whose [getPrototypeOf] trap has the
    outcome of the climb, and is represented by that [VProxy].

    [thrown] is what a [throw] carries: the runtime's [TypeError] and
    [ReferenceError], the registry's [RuleNotFound], or whatever value
    foreign code throws. *)
#[warnings="-register-all"]
Inductive valueType : Type :=
| VUndefined
| VNull
| VBoolean (b : bool)
| VNumber (n : number)
| VString (s : jsstring)
| VBigInt (z : Z)
| VSymbol (id : N)
| VArray (id : N) (elements : list valueType)
| VFile (id : N) (size : N)
| VFunction (id : N) (source : jsstring)
| VObject (id : N)
| VHTMLDDA (id : N)
| VProxy (id : N) (target : valueType) (handler : handlerType)
with handlerType : Type :=
| Revoked
| Forwarding
| TrapReturns (found : bool)
| TrapThrows (e : thrown)
with thrown : Type :=
| TypeError
| ReferenceError
| RuleNotFound (name : jsstring)
| UserThrown (v : valueType).

(** The outcome of evaluating an expression: a value or an exception. *)
Inductive completion (A : Type) : Type :=
| Normal (a : A)
| Throw (e : thrown).
Arguments Normal {A} a.
Arguments Throw {A} e.

(** An exception raised in [c] skips the rest [k]. *)
#[export] Instance completion_bind : MBind completion :=
  fun A B (k : A -> completion B) (c : completion A) =>
    match c with
    | Normal a => k a
    | Throw e => Throw e
    end.

(** IsCallable (ECMA-262, 7.2.3): a Proxy can be called when its target
    can, and so can [document.all]. *)
Fixpoint IsCallable (v : valueType) : bool :=
  match v with
  | VFunction _ _ | VHTMLDDA _ => true
  | VProxy _ target _ => IsCallable target
  | _ => false
  end.

(** The [typeof] operator (ECMA-262, 13.5.3).  An object with the
    [[IsHTMLDDA]] slot is "undefined" to it. *)
Definition typeof (v : valueType) : string :=
  match v with
  | VUndefined => "undefined"
  | VNull => "object"
  | VBoolean _ => "boolean"
  | VNumber _ => "number"
  | VString _ => "string"
  | VBigInt _ => "bigint"
  | VSymbol _ => "symbol"
  | VFunction _ _ => "function"
  | VArray _ _ | VFile _ _ | VObject _ => "object"
  | VHTMLDDA _ => "undefined"
  | VProxy _ _ _ => if IsCallable v then "function" else "object"
  end.

(** [x === y] (ECMA-262, 7.2.15). *)
Definition IsStrictlyEqual (x y : valueType) : bool :=
  match x, y with
  | VUndefined, VUndefined | VNull, VNull => true
  | VBoolean a, VBoolean b => Bool.eqb a b
  | VNumber a, VNumber b => number_equal a b
  | VString a, VString b => bool_decide (a = b)
  | VBigInt a, VBigInt b => a =? b
  | VSymbol a, VSymbol b
  | VArray a _, VArray b _
  | VFile a _, VFile b _
  | VFunction a _, VFunction b _
  | VObject a, VObject b
  | VHTMLDDA a, VHTMLDDA b
  | VProxy a _ _, VProxy b _ _ => (a =? b)%N
  | _, _ => false
  end.

Fixpoint indexOf_from (k : Z) (l : list valueType) (searchElement : valueType)
  : Z :=
  match l with
  | [] => -1
  | x :: l' =>
      if IsStrictlyEqual x searchElement then k
      else indexOf_from (k + 1) l' searchElement
  end.

(** [l.indexOf(searchElement)]. *)
Definition indexOf (l : list valueType) (searchElement : valueType) : Z :=
  indexOf_from 0 l searchElement.

(** [Array.isArray(v)], which is IsArray (ECMA-262, 7.2.2): a Proxy is an
    array when its target is, and asking a revoked Proxy throws. *)
Fixpoint Array_isArray (v : valueType) : completion bool :=
  match v with
  | VArray _ _ => Normal true
  | VProxy _ target Revoked => Throw TypeError
  | VProxy _ target _ => Array_isArray target
  | _ => Normal false
  end.

(** [v instanceof File], which is OrdinaryHasInstance (ECMA-262, 7.3.22):
    false for a value that is no object, and for an object the climb up
    its prototype chain in search of [File.prototype].  The first step
    from a Proxy is its [[GetPrototypeOf]] (ECMA-262, 10.5.1), which
    throws when the proxy is revoked, calls the trap when there is one,
    and otherwise goes on from the target. *)
Fixpoint instanceof_File (v : valueType) : completion bool :=
  match v with
  | VFile _ _ => Normal true
  | VProxy _ target Revoked => Throw TypeError
  | VProxy _ target Forwarding => instanceof_File target
  | VProxy _ target (TrapReturns found) => Normal found
  | VProxy _ target (TrapThrows e) => Throw e
  | _ => Normal false
  end.

Fixpoint join (sep : jsstring) (parts : list jsstring) : jsstring :=
  match parts with
  | [] => []
  | [p] => p
  | p :: ps => p ++ sep ++ join sep ps
  end.

(** The abstract operation ToString (ECMA-262, 7.1.17).  A Symbol has no
    string form; an array is the comma-separated join of its elements, with
    [undefined] and [null] elements left empty; an object has the string
    form the [toString] method it inherits gives it, which for a live
    Proxy is the one of its target. *)
Fixpoint ToString (v : valueType) : completion jsstring :=
  match v with
  | VUndefined => Normal (js "undefined")
  | VNull => Normal (js "null")
  | VBoolean b => Normal (if b then js "true" else js "false")
  | VNumber n => Normal (Number_toString n)
  | VString s => Normal s
  | VBigInt z =>
      Normal ((if z <? 0 then js "-" else []) ++ digits_of (Z.abs_N z))
  | VSymbol _ => Throw TypeError
  | VArray _ elements =>
      parts ← (fix each (l : list valueType) : completion (list jsstring) :=
                  match l with
                  | [] => Normal []
                  | x :: l' =>
                      p ← match x with
                          | VUndefined | VNull => Normal []
                          | _ => ToString x
                          end;
                      ps ← each l';
                      Normal (p :: ps)
                  end) elements;
      Normal (join (js ",") parts)
  | VFile _ _ => Normal (js "[object File]")
  | VFunction _ source => Normal source
  | VObject _ => Normal (js "[object Object]")
  | VHTMLDDA _ => Normal (js "[object HTMLAllCollection]")
  | VProxy _ target Revoked => Throw TypeError
  | VProxy _ target _ => ToString target
  end.

(** The global function [parseFloat(string)]: its argument is first
    converted with ToString. *)
Definition parseFloat (string : valueType) : completion valueType :=
  inputString ← ToString string;
  Normal (VNumber (parseFloat_string inputString)).

(** The method call [v.trim()].  Only strings have a [trim] method: the
    property lookup throws on [undefined] and [null], and calling the
    [undefined] it yields on any other value throws too. *)
Definition call_trim (v : valueType) : completion valueType :=
  match v with
  | VString s => Normal (VString (trim s))
  | _ => Throw TypeError
  end.

End JSValue.
Export JSValue.

(** ** [src/lib/normalize-value.ts] *)

Module NormalizeValue.

Local Open Scope string_scope.

Record normalizedValueType : Type :=
  { type : string; value : valueType }.

(** The host the module is loaded in: whether [module.exports] is there,
    and whether the global [File] is defined, as it is in a browser. *)
Record hostType : Type := { module_exports : bool; File : bool }.

(** [const mode = typeof module !== "undefined" && module.exports
                  ? "node" : "browser"]. *)
Definition mode (host : hostType) : string :=
  if module_exports host then "node" else "browser".

(** The name [File] where it is evaluated: a host that does not define it
    throws a ReferenceError. *)
Definition global_File (host : hostType) : completion unit :=
  if File host then Normal tt else Throw ReferenceError.

Definition normalizeValue (host : hostType) (v : valueType)
  : completion normalizedValueType :=
  let type := typeof v in
  if String.eqb type "string" then
    normal ← call_trim v;
    Normal {| type := type; value := normal |}
  else if String.eqb type "number" then
    normal ← parseFloat v;
    Normal {| type := type; value := normal |}
  else
    isArray ← Array_isArray v;
    let type := if isArray : bool then "array" else type in
    isFile ←
      (if String.eqb (mode host) "browser" then
         _ ← global_File host; instanceof_File v
       else Normal false);
    let type := if isFile : bool then "file" else type in
    if (-1 <? indexOf [VUndefined; VNull] v)%Z
    then Normal {| type := "nullish"; value := VNull |}
    else Normal {| type := type; value := v |}.

End NormalizeValue.
Export NormalizeValue.

(** ** [src/lib/validate-data.ts] *)

Module ValidateData.

(** The result object of a rule evaluator, [{ pass: boolean, message:
    string }] as section 3 of the spec declares it.  [validate] takes of
    [pass] its truth value, with [!]. *)
Record ruleResult : Type := { pass : bool; message : jsstring }.

(** [validationType]: the object [validate] builds and returns, [errors]
    by its own properties. *)
Record validationType : Type :=
  { errors : gmap jsstring jsstring; valid : bool }.

(** [dataType]: the own properties of [data], an object whose prototype is
    [Object.prototype], as an object literal or the outcome of
    [JSON.parse] is. *)
Abbreviation dataType := (gmap jsstring valueType).

(** [Object.prototype] and the built-in functions it holds. *)
Definition Object_prototype : valueType := VObject 0.

Definition builtin (id : N) (name : string) : valueType :=
  VFunction id (js ("function " ++ name ++ "() { [native code] }")).

(** What an object inherits from [Object.prototype] (ECMA-262, 20.1.3),
    as reading finds it: eleven functions, and the accessor [__proto__],
    whose getter returns the prototype of the object it is read on. *)
Definition Object_prototype_properties : list (jsstring * valueType) :=
  [ (js "constructor", builtin 1 "Object");
    (js "hasOwnProperty", builtin 2 "hasOwnProperty");
    (js "isPrototypeOf", builtin 3 "isPrototypeOf");
    (js "propertyIsEnumerable", builtin 4 "propertyIsEnumerable");
    (js "toLocaleString", builtin 5 "toLocaleString");
    (js "toString", builtin 6 "toString");
    (js "valueOf", builtin 7 "valueOf");
    (js "__defineGetter__", builtin 8 "__defineGetter__");
    (js "__defineSetter__", builtin 9 "__defineSetter__");
    (js "__lookupGetter__", builtin 10 "__lookupGetter__");
    (js "__lookupSetter__", builtin 11 "__lookupSetter__");
    (js "__proto__", Object_prototype) ].

(** The own enumerable properties of an object, in [for-in] order. *)
Definition keys {V} (o : list (jsstring * V)) : list jsstring := List.map fst o.

(** [o[key]] on such an object; [None] is JavaScript's [undefined]. *)
Fixpoint get {V} (o : list (jsstring * V)) (key : jsstring) : option V :=
  match o with
  | [] => None
  | (k, v) :: o' => if bool_decide (k = key) then Some v else get o' key
  end.

(** [data[key]], which is OrdinaryGet (ECMA-262, 10.1.8): the own property
    when there is one, else the property inherited from
    [Object.prototype], else [undefined]. *)
Definition OrdinaryGet (data : dataType) (key : jsstring) : valueType :=
  match data !! key with
  | Some v => v
  | None => default VUndefined (get Object_prototype_properties key)
  end.

(** [errors[key] = message] with a string [message], which is OrdinarySet
    (ECMA-262, 10.1.9), on an object made by [{}] and written to in this
    way only.  An own property is created or overwritten, except under
    the name [__proto__]: the object inherits the accessor of that name,
    so its setter is called instead, and the setter does nothing with a
    value that is neither an object nor [null] (ECMA-262, 20.1.3.8). *)
Definition OrdinarySet (o : gmap jsstring jsstring) (key message : jsstring)
  : gmap jsstring jsstring :=
  if bool_decide (key = js "__proto__") then o else <[key := message]> o.

(** [result.pass] and [result.message]: reading a property of
    [undefined] or [null] throws. *)
Definition property {A} (p : ruleResult -> A) (result : option ruleResult)
  : completion A :=
  match result with
  | Some r => Normal (p r)
  | None => Throw TypeError
  end.

Section Validate.

(** Whatever the rule evaluators can observe and change. *)
Context {W : Type}.

(** A computation that may change the world and may throw. *)
Definition M (A : Type) : Type := W -> completion A * W.

#[global] Instance M_ret : MRet M := fun A a w => (Normal a, w).

#[global] Instance M_bind : MBind M := fun A B k m w =>
  match m w with
  | (Normal a, w') => k a w'
  | (Throw e, w') => (Throw e, w')
  end.

(** A computation that leaves the world alone. *)
Definition lift {A} (c : completion A) : M A := fun w => (c, w).

(** A rule evaluator: a function of the normalized value, which it reads
    and, as section 3 of the spec has it, does not change.  What it
    returns is a result object, or [None] when it returns [undefined] or
    [null], which the types of TypeScript, erased when the code runs, do
    not keep it from. *)
Definition ruleType : Type := normalizedValueType -> M (option ruleResult).

Definition rulesType : Type := list (jsstring * list ruleType).

(** [l.forEach(callback)] where the callback updates a captured object,
    passed here from one call to the next. *)
Fixpoint forEach {A B} (l : list A) (callback : A -> B -> M B) (captured : B)
  : M B :=
  match l with
  | [] => mret captured
  | x :: l' =>
      captured' ← callback x captured;
      forEach l' callback captured'
  end.

(** [for (const key in o) body]. *)
Definition for_in {V B} (o : list (jsstring * V))
    (body : jsstring -> B -> M B) (captured : B) : M B :=
  forEach (keys o) body captured.

(** The module-level constant [mode] depends on the host. *)
Variable host : hostType.

(** [rules] is [None] when the caller leaves the argument out, and the
    default [{}] applies.  The object [validation] that the two closures
    update in place is passed from one iteration to the next. *)

Definition validate (data : dataType) (rules : option rulesType)
  : M validationType :=
  let rules := default [] rules in
  let validation := {| errors := ∅; valid := true |} in
  for_in rules (fun field validation =>
    normalizedValue ← lift (normalizeValue host (OrdinaryGet data field));
    fieldRules ←
      lift (match get rules field with
            | Some rs => Normal rs
            | None => Throw TypeError
            end);
    forEach fieldRules (fun rule validation =>
      result ← rule normalizedValue;
      result_pass ← lift (property pass result);
      if negb (result_pass : bool) then
        result_message ← lift (property message result);
        mret {| errors := OrdinarySet (errors validation) field result_message;
                valid := false |}
      else mret validation) validation) validation.

End Validate.

End ValidateData.
Export ValidateData.

(** ** Specification vocabulary *)

Module Spec.

(** A string that does not start, respectively end, with white space. *)
Definition no_leading_space (s : jsstring) : Prop :=
  match s with
  | c :: _ => is_white_space c = false
  | [] => True
  end.

Definition no_trailing_space (s : jsstring) : Prop :=
  no_leading_space (rev s).

Definition all_white_space (s : jsstring) : Prop :=
  Forall (fun c => is_white_space c = true) s.

Definition negative_zero : number := S754_zero true.

(** The guarantee ECMA-262 states for [Number::toString]: reading back the
    string form of a Number other than [-0] gives that same Number. *)
Definition reads_back (x : number) : Prop :=
  x <> negative_zero -> parseFloat_string (Number_toString x) = x.

(** A JavaScript Number: a binary64 datum in its canonical form. *)
Definition is_Number (x : number) : Prop := valid_binary prec emax x = true.

(** A string that does not start with a decimal digit. *)
Definition starts_without_digit (s : jsstring) : Prop :=
  match s with c :: _ => is_digit c = false | [] => True end.

(** The exponent read after the digits. *)
Definition exponent_of (rest : jsstring) : Z :=
  match parse_ExponentPart rest with
  | Some (e, _) => e
  | None => 0
  end.

(** [n] is the decimal order of [num / den]:
    [10^(n-1) <= num/den < 10^n]. *)
Definition decimal_order_of (num den n : Z) : Prop :=
  den * 10 ^ Z.max (n - 1) 0 <= num * 10 ^ Z.max (1 - n) 0
  /\ num * 10 ^ Z.max (- n) 0 < den * 10 ^ Z.max n 0.

(** A host that defines [File] when the module takes it for a browser. *)
Definition provides_File (host : hostType) : Prop :=
  module_exports host = false -> File host = true.

(** What the test [mode === "browser" && value instanceof File] comes
    to. *)
Definition is_File (host : hostType) (v : valueType) : completion bool :=
  if module_exports host then Normal false
  else if File host then instanceof_File v
  else Throw ReferenceError.

(** A Proxy object, or what is represented by one. *)
Definition is_Proxy (v : valueType) : Prop :=
  match v with VProxy _ _ _ => True | _ => False end.

(** A name every object inherits a property under. *)
Definition inherited (key : jsstring) : Prop :=
  get Object_prototype_properties key <> None.

(** The messages of the failing results, in order. *)
Definition failures (results : list ruleResult) : list jsstring :=
  List.map message (List.filter (fun r => negb (pass r)) results).

(** One field as [validate] went through it: its normalized value and what
    each of its rules returned. *)
Record check : Type :=
  { field : jsstring;
    normalized : normalizedValueType;
    results : list ruleResult }.

(** The messages of the failing results recorded for field [f]. *)
Definition failures_of (f : jsstring) (log : list check) : list jsstring :=
  flat_map (fun c => if bool_decide (field c = f) then failures (results c)
                     else []) log.

(** What the callback of [validate] does with one result. *)
Definition record_result (f : jsstring) (validation : validationType)
    (result : ruleResult) : validationType :=
  if negb (pass result) then
    {| errors := OrdinarySet (errors validation) f (message result);
       valid := false |}
  else validation.

Definition record_check (validation : validationType) (c : check)
  : validationType :=
  fold_left (record_result (field c)) (results c) validation.

Section Runs.

Context {W : Type}.
Variable host : hostType.

(** [invoked nv rules w results w']: from world [w], each rule of [rules]
    was called on [nv], in order, each call returned a result object,
    whether it passes or fails, [results] lists what they returned and
    [w'] is the world after the last call. *)
Inductive invoked (nv : normalizedValueType)
  : list (ruleType (W := W)) -> W -> list ruleResult -> W -> Prop :=
| invoked_nil w : invoked nv [] w [] w
| invoked_cons rule rules result results w w1 w2 :
    rule nv w = (Normal (Some result), w1) ->
    invoked nv rules w1 results w2 ->
    invoked nv (rule :: rules) w (result :: results) w2.

(** [checked data rules fields w log w']: from world [w], the fields
    [fields] were gone through in order; each was normalized from what
    [data] reads under its name, and every rule declared for it was
    invoked on that normalized value. *)
Inductive checked (data : dataType) (rules : rulesType (W := W))
  : list jsstring -> W -> list check -> W -> Prop :=
| checked_nil w : checked data rules [] w [] w
| checked_cons f fields nv declared res log w w1 w2 :
    normalizeValue host (OrdinaryGet data f) = Normal nv ->
    get rules f = Some declared ->
    invoked nv declared w res w1 ->
    checked data rules fields w1 log w2 ->
    checked data rules (f :: fields) w
      ({| field := f; normalized := nv; results := res |} :: log) w2.

(** The two closures of [validate], named: the callback given to
    [forEach] for the rules of field [f], and the body of the [for-in]
    loop. *)
Definition on_rule (f : jsstring) (nv : normalizedValueType)
  : ruleType (W := W) -> validationType -> M validationType :=
  fun rule validation =>
    result ← rule nv;
    result_pass ← lift (property pass result);
    if negb (result_pass : bool) then
      result_message ← lift (property message result);
      mret {| errors := OrdinarySet (errors validation) f result_message;
              valid := false |}
    else mret validation.

Definition on_field (data : dataType) (rules : rulesType (W := W))
  : jsstring -> validationType -> M validationType :=
  fun f validation =>
    normalizedValue ← lift (normalizeValue host (OrdinaryGet data f));
    fieldRules ←
      lift (match get rules f with
            | Some rs => Normal rs
            | None => Throw TypeError
            end);
    forEach fieldRules (on_rule f normalizedValue) validation.

(** The call of [rule] on [nv] in world [w] ends the validation with the
    exception [e] in world [w']: the evaluator throws [e], or it returns
    no object, and reading [pass] off that raises a TypeError. *)
Definition fails_with (rule : ruleType (W := W)) (nv : normalizedValueType)
    (w : W) (e : thrown) (w' : W) : Prop :=
  rule nv w = (Throw e, w')
  \/ (rule nv w = (Normal None, w') /\ e = TypeError).

(** A rule evaluator that returns a result object on every input. *)
Definition never_throws (rule : ruleType (W := W)) : Prop :=
  forall nv w, exists result w', rule nv w = (Normal (Some result), w').

End Runs.

End Spec.
Export Spec.

(** ** The rule registry *)

Module RuleRegistry.

(** Modelled from the spec: one use of a registered rule in a rule-set,
    [name(config, message)], as in the rule-sets of section 8. *)
Record ruleUse : Type :=
  { rule_name : jsstring;
    rule_config : option valueType;
    rule_message : option jsstring }.

Section Registry.

Context {W : Type}.

(** Modelled from the spec: the rule factories and the registry of
    section 4.2, whose source file is not part of [src/].  A factory takes
    the optional configuration and message and returns an evaluator. *)
Definition factoryType : Type :=
  option valueType -> option jsstring -> ruleType (W := W).

(** Modelled from the spec: [add(name, factory)] of section 4.2 registers
    or overwrites, the last registration wins. *)
Definition add (name : jsstring) (factory : factoryType)
    (registry : gmap jsstring factoryType) : gmap jsstring factoryType :=
  <[name := factory]> registry.

(** Modelled from the spec: [get(name)] of section 4.2, which fails with
    [RuleNotFound] when the name is unregistered. *)
Definition registry_get (registry : gmap jsstring factoryType)
    (name : jsstring) : completion factoryType :=
  match registry !! name with
  | Some factory => Normal factory
  | None => Throw (RuleNotFound name)
  end.

(** Modelled from the spec: [buildRule(name, config?, message?)] of
    section 6, the lookup followed by the call of the factory. *)
Definition buildRule (registry : gmap jsstring factoryType) (u : ruleUse)
  : completion ruleType :=
  factory ← registry_get registry (rule_name u);
  Normal (factory (rule_config u) (rule_message u)).

(** Modelled from the spec: a rule-set literal such as
    [{ email: [required(m)] }] of section 8 is evaluated before the call
    of [validate] it is an argument of, its rules built from left to
    right. *)
Fixpoint buildRules (registry : gmap jsstring factoryType)
    (uses : list ruleUse) : completion (list ruleType) :=
  match uses with
  | [] => Normal []
  | u :: uses' =>
      rule ← buildRule registry u;
      rules ← buildRules registry uses';
      Normal (rule :: rules)
  end.

(** Modelled from the spec: the fields of such a literal, evaluated in the
    order they are written. *)
Fixpoint buildRuleSet (registry : gmap jsstring factoryType)
    (declared : list (jsstring * list ruleUse)) : completion rulesType :=
  match declared with
  | [] => Normal []
  | (f, uses) :: declared' =>
      rules ← buildRules registry uses;
      rest ← buildRuleSet registry declared';
      Normal ((f, rules) :: rest)
  end.

(** Modelled from the spec: the call [validate(data, ruleSet)] with the
    rule-set written in terms of registered names. *)
Definition validateDeclared (host : hostType)
    (registry : gmap jsstring factoryType) (data : dataType)
    (declared : list (jsstring * list ruleUse)) : M validationType :=
  rules ← lift (buildRuleSet registry declared);
  validate host data (Some rules).

End Registry.

End RuleRegistry.
Export RuleRegistry.

(** ** Sample data *)

Module Samples.

(** Node with CommonJS modules, a browser, and a host that has neither
    [module] nor [File], as an engine that runs the code as a JavaScript
    module outside a browser can be. *)
Definition node : hostType := {| module_exports := true; File := false |}.
Definition browser : hostType := {| module_exports := false; File := true |}.

(** [document.all], a Proxy whose handler was revoked, a live Proxy on an
    array, and one whose [getPrototypeOf] trap throws. *)
Definition document_all : valueType := VHTMLDDA 20.
Definition array_proxy : valueType :=
  VProxy 23 (VArray 24 [VBoolean true]) Forwarding.

(** The double nearest to one tenth. *)
Definition one_tenth : number := S754_finite false 7205759403792794 (-56).

(** A rule with a fixed result that appends its message to the world, a
    list of the messages of the rules called so far. *)
Definition fixed_rule (p : bool) (m : string) : ruleType (W := list jsstring) :=
  fun _ w => (Normal (Some {| pass := p; message := js m |}), w ++ [js m]).

(** A rule that passes on everything but a "nullish" value. *)
Definition present_rule (m : string) : ruleType (W := list jsstring) :=
  fun nv w =>
    (Normal (Some {| pass := negb (String.eqb (type nv) "nullish"%string);
                     message := js m |}), w ++ [js m]).

(** A rule that throws its message. *)
Definition throwing_rule (m : string) : ruleType (W := list jsstring) :=
  fun _ w => (Throw (UserThrown (VString (js m))), w ++ [js m]).

Definition sample_data : dataType :=
  <[js "name" := VString (js " Ada ")]> (<[js "extra" := VNull]> ∅).

Definition sample_rules : rulesType (W := list jsstring) :=
  [ (js "name", [fixed_rule false "too short"; fixed_rule false "too plain";
                 fixed_rule true "fine"]);
    (js "email", [present_rule "required"]) ].

Definition throwing_rules : rulesType (W := list jsstring) :=
  [ (js "name", [fixed_rule false "too short"; throwing_rule "boom";
                 fixed_rule false "never called"]);
    (js "email", [present_rule "required"]) ].







(** A registry with the one rule [required], and a rule-set that also uses
    a name nobody registered. *)
Definition sample_registry : gmap jsstring (factoryType (W := list jsstring)) :=
  add (js "required")
    (fun _ message nv w =>
       (Normal (Some {| pass := negb (String.eqb (type nv) "nullish"%string);
                        message := default (js "Required") message |}), w))
    ∅.

Definition sample_declared : list (jsstring * list ruleUse) :=
  [ (js "email",
      [ {| rule_name := js "required"; rule_config := None;
           rule_message := Some (js "Email is required") |};
        {| rule_name := js "barcode"; rule_config := None;
           rule_message := None |} ]) ].

End Samples.
Export Samples.

(** ** Vocabulary for the further properties *)

Module Coverage.

(** The tags [normalizeValue] gives out. *)
Definition known_tags : list string :=
  [ "string"; "number"; "boolean"; "bigint"; "symbol"; "function";
    "object"; "array"; "file"; "nullish"; "undefined" ]%string.

(** The two inputs that stand for "no value". *)
Definition absent (v : valueType) : Prop := v = VUndefined \/ v = VNull.


(** [x] with [-0] replaced by [+0]. *)
Definition without_negative_zero (x : number) : number :=
  match x with
  | S754_zero _ => S754_zero false
  | _ => x
  end.

(** Two data objects with the same properties under the names [fields]. *)
Definition agree_on (fields : list jsstring) (data data' : dataType) : Prop :=
  forall f, In f fields -> data !! f = data' !! f.

(** No field of [fields] reads a Proxy off [data]. *)
Definition no_Proxy (fields : list jsstring) (data : dataType) : Prop :=
  forall f, In f fields -> ~ is_Proxy (OrdinaryGet data f).

(** The result of validating twice: the later errors are written over the
    earlier ones, and one failure is enough to be invalid. *)
Definition merge (first second : validationType) : validationType :=
  {| errors := errors second ∪ errors first;
     valid := valid first && valid second |}.

Section Rules.

Context {W : Type}.

(** A rule evaluator that never throws, returns a result object and leaves
    the world as it is. *)
Definition quiet (rule : ruleType (W := W)) : Prop :=
  forall nv w, exists result, rule nv w = (Normal (Some result), w).

(** Every rule of a rule-set is quiet. *)
Definition all_quiet (rules : rulesType (W := W)) : Prop :=
  forall f declared, In (f, declared) rules -> Forall quiet declared.

End Rules.

(** *** More sample data *)

Definition sample_array : valueType :=
  VArray 7 [VNumber one_tenth; VNull; VString (js " x ")].

(** A rule without side effect that passes on everything but a "nullish"
    value. *)
Definition quiet_present_rule (m : string) : ruleType (W := list jsstring) :=
  fun nv w =>
    (Normal (Some {| pass := negb (String.eqb (type nv) "nullish"%string);
                     message := js m |}), w).

(** A rule without side effect that passes on a string of at most [n] code
    units and on anything that is not a string. *)
Definition quiet_max_rule (n : nat) (m : string)
  : ruleType (W := list jsstring) :=
  fun nv w =>
    (Normal (Some {| pass := match value nv with
                             | VString s => Nat.leb (length s) n
                             | _ => true
                             end;
                     message := js m |}), w).

Definition name_rules : rulesType (W := list jsstring) :=
  [ (js "name", [fixed_rule false "too short"; fixed_rule true "fine"]) ].

Definition email_rules : rulesType (W := list jsstring) :=
  [ (js "email", [present_rule "required"]) ].

Definition quiet_rules : rulesType (W := list jsstring) :=
  [ (js "name", [quiet_max_rule 2 "too long"]);
    (js "email", [quiet_present_rule "required"]) ].

Definition quiet_rules_swapped : rulesType (W := list jsstring) :=
  [ (js "email", [quiet_present_rule "required"]);
    (js "name", [quiet_max_rule 2 "too long"]) ].

(** A rule-set [sample_data] is valid for. *)
Definition passing_rules : rulesType (W := list jsstring) :=
  [ (js "name", [quiet_present_rule "required"]) ].

(** [sample_data] with one more property, under a name no rule is
    declared for. *)
Definition sample_data_more : dataType :=
  <[js "other" := VBoolean true]> sample_data.

End Coverage.
Export Coverage.

(** * Properties of the number built-ins *)

(** ** Decimal digits *)

Section Digits.

Lemma digits_value_snoc ds c :
  digits_value (ds ++ [c]) = (10 * digits_value ds + (c - 48))%N.
Proof. unfold digits_value. rewrite fold_left_app. reflexivity. Qed.

Lemma digits_value_app ds1 ds2 :
  digits_value (ds1 ++ ds2)
  = (digits_value ds1 * 10 ^ N.of_nat (length ds2) + digits_value ds2)%N.
Proof.
  induction ds2 as [|c ds2 IH] using rev_ind.
  - rewrite app_nil_r. cbn. lia.
  - rewrite app_assoc, !digits_value_snoc, IH, length_app. cbn [length].
    replace (N.of_nat (length ds2 + 1)) with (N.succ (N.of_nat (length ds2))) by lia.
    rewrite N.pow_succ_r'. lia.
Qed.

Lemma digits_from_spec fuel n acc :
  (0 < fuel)%nat ->
  (n < 2 ^ N.of_nat fuel)%N ->
  exists ds,
    digits_from fuel n acc = ds ++ acc
    /\ Forall (fun c => is_digit c = true) ds
    /\ digits_value ds = n
    /\ (n < 10 ^ N.of_nat (length ds))%N
    /\ (0 < length ds)%nat
    /\ ((0 < n)%N -> (10 ^ N.of_nat (length ds - 1) <= n)%N).
Proof.
  revert n acc. induction fuel as [|fuel IH]; intros n acc Hfuel Hn.
  - lia.
  - cbn [digits_from].
    assert (Hmod : (n mod 10 < 10)%N) by (apply N.mod_lt; lia).
    assert (Hdm : n = (10 * (n / 10) + n mod 10)%N) by (apply N.div_mod; lia).
    replace (N.of_nat (S fuel)) with (N.succ (N.of_nat fuel)) in Hn by lia.
    rewrite N.pow_succ_r' in Hn.
    set (q := (n / 10)%N) in *. set (r := (n mod 10)%N) in *.
    clearbody q r.
    assert (Hdig : is_digit (48 + r) = true).
    { unfold is_digit. apply andb_true_intro. split; apply N.leb_le; lia. }
    destruct (q =? 0)%N eqn:Hq.
    + apply N.eqb_eq in Hq. exists [(48 + r)%N].
      split; [reflexivity|]. split; [repeat constructor; exact Hdig|].
      split; [cbn; lia|]. split; [cbn; lia|]. split; [cbn; lia|].
      cbn. lia.
    + apply N.eqb_neq in Hq.
      destruct (IH q ((48 + r)%N :: acc))
        as (ds & Hds & Hall & Hval & Hlt & Hlen & Hge).
      { destruct fuel; [|lia]. cbn in Hn. lia. }
      { lia. }
      assert (Hq0 : (0 < q)%N) by lia. specialize (Hge Hq0).
      exists (ds ++ [(48 + r)%N]).
      split; [rewrite Hds, <- app_assoc; reflexivity|].
      split; [apply Forall_app; split; [exact Hall | repeat constructor; exact Hdig]|].
      split; [rewrite digits_value_snoc, Hval; lia|].
      rewrite length_app. cbn [length].
      replace (N.of_nat (length ds + 1)) with (N.succ (N.of_nat (length ds))) by lia.
      rewrite N.pow_succ_r'.
      split; [lia|]. split; [lia|]. intros _.
      replace (length ds + 1 - 1)%nat with (S (length ds - 1)) by lia.
      replace (N.of_nat (S (length ds - 1))) with (N.succ (N.of_nat (length ds - 1))) by lia.
      rewrite N.pow_succ_r'. lia.
Qed.

Lemma digits_of_spec n :
  Forall (fun c => is_digit c = true) (digits_of n)
  /\ digits_value (digits_of n) = n
  /\ (n < 10 ^ N.of_nat (length (digits_of n)))%N
  /\ (0 < length (digits_of n))%nat
  /\ ((0 < n)%N -> (10 ^ N.of_nat (length (digits_of n) - 1) <= n)%N).
Proof.
  unfold digits_of.
  destruct (digits_from_spec (S (N.to_nat (N.log2 n))) n []) as (ds & Hds & H).
  - lia.
  - replace (N.of_nat (S (N.to_nat (N.log2 n)))) with (N.succ (N.log2 n)) by lia.
    destruct n as [|p]; [cbn; lia|]. apply N.log2_spec. lia.
  - rewrite Hds, app_nil_r. exact H.
Qed.

(** The length of the decimal representation of a [k]-digit number. *)
Lemma digits_of_length n k :
  (0 < k)%nat -> (10 ^ N.of_nat (k - 1) <= n < 10 ^ N.of_nat k)%N ->
  length (digits_of n) = k.
Proof.
  intros Hk [Hlo Hhi].
  destruct (digits_of_spec n) as (_ & _ & Hlt & Hlen & Hge).
  assert (Hpos : (0 < n)%N).
  { assert (10 ^ N.of_nat (k - 1) <> 0)%N by (apply N.pow_nonzero; lia). lia. }
  specialize (Hge Hpos). set (l := length (digits_of n)) in *.
  destruct (Nat.lt_trichotomy l k) as [Hc | [Hc | Hc]]; [|exact Hc|].
  - exfalso. assert ((10 ^ N.of_nat l <= 10 ^ N.of_nat (k - 1))%N).
    { apply N.pow_le_mono_r; lia. } lia.
  - exfalso. assert ((10 ^ N.of_nat k <= 10 ^ N.of_nat (l - 1))%N).
    { apply N.pow_le_mono_r; lia. } lia.
Qed.

Lemma span_digits_app ds rest :
  Forall (fun c => is_digit c = true) ds ->
  starts_without_digit rest ->
  span_digits (ds ++ rest) = (ds, rest).
Proof.
  intros Hds Hrest. induction Hds as [|c ds Hc _ IH].
  - destruct rest as [|c rest]; [reflexivity|]. cbn in *. rewrite Hrest. reflexivity.
  - cbn. rewrite Hc, IH. reflexivity.
Qed.

End Digits.

(** ** Reading back a printed decimal *)

Section ParseFormat.

Ltac digit_bounds H :=
  unfold is_digit in H; apply andb_prop in H;
  let H1 := fresh in let H2 := fresh in
  destruct H as [H1 H2]; apply N.leb_le in H1; apply N.leb_le in H2.

Lemma digit_not_white_space c : is_digit c = true -> is_white_space c = false.
Proof.
  intros H. digit_bounds H. unfold is_white_space.
  repeat (apply orb_false_intro);
    try (apply N.eqb_neq; lia);
    apply andb_false_iff;
    solve [left; apply N.leb_gt; lia | right; apply N.leb_gt; lia].
Qed.

Lemma digit_not c v :
  is_digit c = true -> (v < 48 \/ 57 < v)%N -> (c =? v)%N = false.
Proof. intros H Hv. digit_bounds H. apply N.eqb_neq. lia. Qed.

Lemma zeros_digits j : Forall (fun c => is_digit c = true) (zeros j).
Proof.
  unfold zeros. induction (Z.to_nat j) as [|i IH]; cbn; constructor; auto.
Qed.

Lemma zeros_length j : length (zeros j) = Z.to_nat j.
Proof. apply repeat_length. Qed.

Lemma zeros_value j : digits_value (zeros j) = 0%N.
Proof.
  unfold zeros. induction (Z.to_nat j) as [|i IH]; [reflexivity|].
  replace (S i) with (i + 1)%nat by lia. rewrite repeat_app. cbn [repeat].
  rewrite digits_value_snoc, IH. reflexivity.
Qed.

Lemma parse_integer ip rest :
  Forall (fun c => is_digit c = true) ip ->
  ip <> [] ->
  starts_without_digit rest ->
  match rest with c :: _ => (c =? 46)%N = false | [] => True end ->
  parse_unsigned_decimal (ip ++ rest)
  = Some (digits_value ip, exponent_of rest).
Proof.
  intros Hip Hne Hrest Hdot. unfold parse_unsigned_decimal.
  rewrite (span_digits_app ip rest Hip Hrest).
  assert (Hfp : match rest with
                | c :: s1' => if (c =? 46)%N then span_digits s1' else ([], rest)
                | [] => ([], rest)
                end = ([], rest)).
  { destruct rest as [|c rest']; [reflexivity|]. rewrite Hdot. reflexivity. }
  rewrite Hfp, app_nil_r. destruct ip as [|c ip']; [contradiction|].
  cbn [length]. unfold exponent_of. f_equal. f_equal. lia.
Qed.

Lemma parse_fraction ip fp rest :
  Forall (fun c => is_digit c = true) ip ->
  Forall (fun c => is_digit c = true) fp ->
  ip ++ fp <> [] ->
  starts_without_digit rest ->
  parse_unsigned_decimal (ip ++ 46%N :: fp ++ rest)
  = Some (digits_value (ip ++ fp), exponent_of rest - Z.of_nat (length fp)).
Proof.
  intros Hip Hfp Hne Hrest. unfold parse_unsigned_decimal.
  rewrite (span_digits_app ip (46%N :: fp ++ rest) Hip)
    by (cbn; reflexivity).
  cbn [N.eqb Pos.eqb]. rewrite (span_digits_app fp rest Hfp Hrest).
  destruct (ip ++ fp) as [|c l] eqn:Hl; [contradiction|].
  reflexivity.
Qed.

Lemma span_digits_all ds :
  Forall (fun c => is_digit c = true) ds -> span_digits ds = (ds, []).
Proof.
  intros Hds. rewrite <- (app_nil_r ds) at 1.
  apply span_digits_app; [exact Hds | exact I].
Qed.

Lemma parse_exponent e :
  exponent_of ((if e <? 0 then js "e-" else js "e+")
               ++ digits_of (Z.to_N (Z.abs e))) = e.
Proof.
  destruct (digits_of_spec (Z.to_N (Z.abs e))) as (Hall & Hval & _ & Hlen & _).
  remember (digits_of (Z.to_N (Z.abs e))) as ds eqn:Hds.
  pose proof (span_digits_all ds Hall) as Hspan.
  destruct ds as [|c ds']; [cbn in Hlen; lia|].
  unfold exponent_of, parse_ExponentPart.
  destruct (e <? 0) eqn:He.
  - change (js "e-") with [101%N; 45%N]. cbn [app N.eqb Pos.eqb orb].
    rewrite Hspan, Hval. apply Z.ltb_lt in He. lia.
  - change (js "e+") with [101%N; 43%N]. cbn [app N.eqb Pos.eqb orb].
    rewrite Hspan, Hval. apply Z.ltb_ge in He. lia.
Qed.

Lemma decimal_to_number_scaled neg d j :
  0 <= j ->
  decimal_to_number neg (d * 10 ^ Z.to_N j)%N 0 = decimal_to_number neg d j.
Proof.
  intros Hj. destruct d as [|p]; [reflexivity|].
  assert (Hpow : 0 < 10 ^ j) by (apply Z.pow_pos_nonneg; lia).
  destruct (N.pos p * 10 ^ Z.to_N j)%N as [|p'] eqn:Hp'.
  - exfalso. apply (f_equal Z.of_N) in Hp'.
    rewrite N2Z.inj_mul, N2Z.inj_pow, Z2N.id in Hp' by lia. cbn in Hp'. lia.
  - unfold decimal_to_number.
    apply (f_equal Z.of_N) in Hp'.
    rewrite N2Z.inj_mul, N2Z.inj_pow, Z2N.id in Hp' by lia. cbn in Hp'.
    rewrite (Z.max_l j 0), (Z.max_r (- j) 0), Z.max_id, <- Hp' by lia.
    cbn [Z.opp]. rewrite Z.max_id. rewrite Z.pow_0_r, Z.mul_1_r. reflexivity.
Qed.

Lemma exponent_starts e :
  let rest := (if e <? 0 then js "e-" else js "e+")
              ++ digits_of (Z.to_N (Z.abs e)) in
  starts_without_digit rest
  /\ match rest with c :: _ => (c =? 46)%N = false | [] => True end.
Proof. destruct (e <? 0); split; reflexivity. Qed.

(** Reading back what [format_decimal] prints for a [k]-digit [d]. *)
Lemma parse_format_decimal d n k :
  0 < k ->
  10 ^ (k - 1) <= Z.of_N d < 10 ^ k ->
  exists d' e',
    parse_unsigned_decimal (format_decimal d n k) = Some (d', e')
    /\ (forall neg,
          decimal_to_number neg d' e' = decimal_to_number neg d (n - k))
    /\ exists c rest,
         format_decimal d n k = c :: rest /\ is_digit c = true.
Proof.
  intros Hk Hd.
  destruct (digits_of_spec d) as (Hall & Hval & _ & _ & _).
  assert (Hlen : length (digits_of d) = Z.to_nat k).
  { apply digits_of_length; [lia|].
    replace (N.of_nat (Z.to_nat k - 1)) with (Z.to_N (k - 1)) by lia.
    replace (N.of_nat (Z.to_nat k)) with (Z.to_N k) by lia.
    split.
    - apply N2Z.inj_le. rewrite N2Z.inj_pow, Z2N.id by lia. apply Hd.
    - apply N2Z.inj_lt. rewrite N2Z.inj_pow, Z2N.id by lia. apply Hd. }
  unfold format_decimal. set (ds := digits_of d) in *.
  assert (Hsplit : forall i, ds = firstn i ds ++ skipn i ds)
    by (intros i; symmetry; apply firstn_skipn).
  assert (Hparts : forall i,
             Forall (fun c => is_digit c = true) (firstn i ds)
             /\ Forall (fun c => is_digit c = true) (skipn i ds)).
  { intros i. apply Forall_app. rewrite <- Hsplit. exact Hall. }
  assert (Hhead : forall i, (0 < i)%nat ->
             exists c rest, firstn i ds = c :: rest /\ is_digit c = true).
  { intros i Hi. destruct ds as [|c ds']; [cbn in Hlen; lia|].
    destruct i as [|i]; [lia|]. exists c, (firstn i ds').
    split; [reflexivity|]. inversion Hall; assumption. }
  destruct (Hhead (length ds)) as (c0 & ds' & Hds & Hc0); [lia|].
  rewrite firstn_all in Hds.
  destruct ((-5 <=? n) && (n <=? 21)) eqn:Hfixed.
  - destruct (k <=? n) eqn:Hkn; [|destruct (0 <? n) eqn:Hn].
    + (* digits followed by zeros *)
      apply Z.leb_le in Hkn.
      exists (digits_value (ds ++ zeros (n - k))), 0. split; [|split].
      * rewrite <- (app_nil_r (ds ++ zeros (n - k))) at 1.
        apply parse_integer; [|rewrite Hds; discriminate|exact I|exact I].
        apply Forall_app. split; [exact Hall | apply zeros_digits].
      * intros neg. rewrite digits_value_app, zeros_value, zeros_length, Hval.
        replace (N.of_nat (Z.to_nat (n - k))) with (Z.to_N (n - k)) by lia.
        rewrite N.add_0_r. apply decimal_to_number_scaled. lia.
      * exists c0, (ds' ++ zeros (n - k)). rewrite Hds. auto.
    + (* a decimal point inside the digits *)
      apply Z.leb_gt in Hkn. apply Z.ltb_lt in Hn.
      destruct (Hparts (Z.to_nat n)) as [Hip Hfp].
      exists (digits_value ds), (n - k). split; [|split].
      * change (js ".") with [46%N]. cbn [app].
        rewrite <- (app_nil_r (skipn _ ds)).
        rewrite (parse_fraction _ _ [] Hip Hfp); [|rewrite <- Hsplit, Hds; discriminate|exact I].
        rewrite <- Hsplit. f_equal. f_equal. rewrite length_skipn.
        change (exponent_of []) with 0. lia.
      * intros neg. rewrite Hval. reflexivity.
      * destruct (Hhead (Z.to_nat n)) as (c & rest & Hc & Hdig); [lia|].
        rewrite Hc. eauto.
    + (* zeros between the decimal point and the digits *)
      apply Z.leb_gt in Hkn. apply Z.ltb_ge in Hn.
      exists (digits_value ds), (n - k). split; [|split].
      * change (js "0.") with ([48%N] ++ [46%N]). rewrite <- !app_assoc.
        cbn [app]. change (48%N :: 46%N :: ?l) with ([48%N] ++ 46%N :: l).
        rewrite <- (app_nil_r ds) at 1. rewrite app_assoc.
        rewrite (parse_fraction [48%N] (zeros (- n) ++ ds) []);
          [|repeat constructor| |discriminate|exact I].
        -- cbn [app]. change (48%N :: ?l) with ([48%N] ++ l).
           rewrite !digits_value_app, zeros_value, Hval.
           rewrite length_app, zeros_length.
           change (digits_value [48%N]) with 0%N.
           change (exponent_of []) with 0.
           f_equal. f_equal; lia.
        -- apply Forall_app. split; [apply zeros_digits | exact Hall].
      * intros neg. rewrite Hval. reflexivity.
      * exists 48%N, (46%N :: zeros (- n) ++ ds). split; reflexivity.
  - destruct (exponent_starts (n - 1)) as [Hstart Hdot].
    pose proof (parse_exponent (n - 1)) as Hexp.
    set (exponent := (if n - 1 <? 0 then js "e-" else js "e+")
                     ++ digits_of (Z.to_N (Z.abs (n - 1)))) in *.
    destruct (k =? 1) eqn:Hk1.
    + (* one digit and an exponent *)
      apply Z.eqb_eq in Hk1. exists (digits_value ds), (n - 1).
      split; [|split].
      * rewrite (parse_integer ds exponent Hall); [|rewrite Hds; discriminate|exact Hstart|exact Hdot].
        rewrite Hexp. reflexivity.
      * intros neg. rewrite Hval, Hk1. reflexivity.
      * exists c0, (ds' ++ exponent). rewrite Hds. auto.
    + (* several digits and an exponent *)
      apply Z.eqb_neq in Hk1.
      destruct (Hparts 1%nat) as [Hip Hfp].
      exists (digits_value ds), (n - k). split; [|split].
      * change (js ".") with [46%N]. cbn [app].
        rewrite (parse_fraction _ _ exponent Hip Hfp); [|rewrite <- Hsplit, Hds; discriminate|exact Hstart].
        rewrite <- Hsplit, Hexp. f_equal. f_equal. rewrite length_skipn. lia.
      * intros neg. rewrite Hval. reflexivity.
      * destruct (Hhead 1%nat) as (c & rest & Hc & Hdig); [lia|].
        rewrite Hc. eauto.
Qed.

Lemma parseFloat_format_decimal (neg : bool) d n k :
  0 < k ->
  10 ^ (k - 1) <= Z.of_N d < 10 ^ k ->
  parseFloat_string ((if neg then js "-" else []) ++ format_decimal d n k)
  = decimal_to_number neg d (n - k).
Proof.
  intros Hk Hd.
  destruct (parse_format_decimal d n k Hk Hd)
    as (d' & e' & Hparse & Hsame & c & rest & Hbody & Hc).
  remember (format_decimal d n k) as body eqn:Hfmt. clear Hfmt.
  assert (Hinf : strip_prefix (js "Infinity") body = None).
  { rewrite Hbody. change (js "Infinity") with
      [73%N; 110%N; 102%N; 105%N; 110%N; 105%N; 116%N; 121%N].
    cbn [strip_prefix]. rewrite N.eqb_sym, (digit_not c 73 Hc); [reflexivity|lia]. }
  unfold parseFloat_string, trimStart. destruct neg.
  - change (js "-") with [45%N]. cbn [app dropWhile].
    change (is_white_space 45) with false. cbn [N.eqb Pos.eqb].
    rewrite Hinf, Hparse. apply Hsame.
  - subst body. cbn [app dropWhile].
    rewrite (digit_not_white_space c Hc).
    rewrite (digit_not c 45 Hc), (digit_not c 43 Hc) by lia.
    rewrite Hinf, Hparse. apply Hsame.
Qed.

End ParseFormat.

(** ** Rounding an exactly representable quotient *)

Section Rounding.

Lemma digits2_pos_size p : digits2_pos p = Pos.size p.
Proof. induction p as [p IH|p IH|]; cbn; congruence. Qed.

Lemma digits2_bounds p :
  2 ^ (Zpos (digits2_pos p) - 1) <= Zpos p < 2 ^ Zpos (digits2_pos p).
Proof.
  rewrite digits2_pos_size. split.
  - pose proof (Pos.size_le p) as H.
    apply Pos2Z.pos_le_pos in H. rewrite Pos2Z.inj_pow in H.
    replace (Zpos (Pos.size p)) with (Z.succ (Zpos (Pos.size p) - 1)) in H by lia.
    rewrite Z.pow_succ_r in H by lia. lia.
  - pose proof (Pos.size_gt p) as H.
    apply Pos2Z.pos_lt_pos in H. rewrite Pos2Z.inj_pow in H. exact H.
Qed.

Lemma Zdigits2_shifted m (j : nat) :
  Zdigits2 (Zpos m * 2 ^ Z.of_nat j) = Zpos (digits2_pos m) + Z.of_nat j.
Proof.
  induction j as [|j IH].
  - cbn [Z.of_nat]. rewrite Z.pow_0_r, Z.mul_1_r, Z.add_0_r. reflexivity.
  - rewrite Nat2Z.inj_succ, Z.pow_succ_r by lia.
    assert (Hpos : 0 < Zpos m * 2 ^ Z.of_nat j) by (apply Z.mul_pos_pos; lia).
    destruct (Zpos m * 2 ^ Z.of_nat j) as [|q|q] eqn:Hq; try lia.
    replace (Zpos m * (2 * 2 ^ Z.of_nat j)) with (2 * (Zpos m * 2 ^ Z.of_nat j)) by lia.
    rewrite Hq. change (2 * Z.pos q) with (Z.pos q~0).
    cbn [Zdigits2 digits2_pos] in *. lia.
Qed.

Lemma iter_pos_nat {A} (f : A -> A) p x :
  SpecFloat.iter_pos f p x = Nat.iter (Pos.to_nat p) f x.
Proof.
  revert x. induction p as [p IH|p IH|]; intros x; cbn [SpecFloat.iter_pos].
  - rewrite !IH, Pos2Nat.inj_xI.
    replace (S (2 * Pos.to_nat p)) with (Pos.to_nat p + (Pos.to_nat p + 1))%nat by lia.
    rewrite !Nat.iter_add. reflexivity.
  - rewrite !IH, Pos2Nat.inj_xO.
    replace (2 * Pos.to_nat p)%nat with (Pos.to_nat p + Pos.to_nat p)%nat by lia.
    rewrite Nat.iter_add. reflexivity.
  - reflexivity.
Qed.

Lemma shr_exact m (j : nat) :
  Nat.iter j shr_1
    {| shr_m := Zpos m * 2 ^ Z.of_nat j; shr_r := false; shr_s := false |}
  = {| shr_m := Zpos m; shr_r := false; shr_s := false |}.
Proof.
  induction j as [|j IH].
  - cbn [Nat.iter Z.of_nat]. rewrite Z.pow_0_r, Z.mul_1_r. reflexivity.
  - rewrite Nat.iter_succ_r, Nat2Z.inj_succ, Z.pow_succ_r by lia.
    assert (Hpos : 0 < Zpos m * 2 ^ Z.of_nat j) by (apply Z.mul_pos_pos; lia).
    destruct (Zpos m * 2 ^ Z.of_nat j) as [|q|q] eqn:Hq; try lia.
    replace (Zpos m * (2 * 2 ^ Z.of_nat j)) with (2 * Zpos q) by lia.
    change (2 * Z.pos q) with (Z.pos q~0). cbn [shr_1 orb]. exact IH.
Qed.

Lemma fexp_monotone a b : a <= b -> fexp prec emax a <= fexp prec emax b.
Proof. unfold fexp, emin, prec, emax. lia. Qed.

Lemma bounded_unfold m e :
  bounded prec emax m e = true ->
  fexp prec emax (Zpos (digits2_pos m) + e) = e /\ e <= emax - prec.
Proof.
  unfold bounded, canonical_mantissa. intros H.
  apply andb_prop in H as [H1 H2].
  apply Z.eqb_eq in H1. apply Z.leb_le in H2. auto.
Qed.

(** A mantissa with [j] extra zero bits is rounded to itself. *)
Lemma binary_round_aux_exact s m e j :
  bounded prec emax m e = true ->
  0 <= j ->
  binary_round_aux prec emax s (Zpos m * 2 ^ j) (e - j) loc_Exact
  = S754_finite s m e.
Proof.
  intros Hb Hj. apply bounded_unfold in Hb as [Hcan Hmax].
  unfold binary_round_aux, shr_fexp.
  assert (Hdig : Zdigits2 (Zpos m * 2 ^ j) = Zpos (digits2_pos m) + j).
  { rewrite <- (Z2Nat.id j) by lia. apply Zdigits2_shifted. }
  rewrite Hdig.
  replace (Zpos (digits2_pos m) + j + (e - j)) with (Zpos (digits2_pos m) + e)
    by lia.
  rewrite Hcan. replace (e - (e - j)) with j by lia.
  cbn [shr_record_of_loc].
  assert (Hshr : shr {| shr_m := Zpos m * 2 ^ j; shr_r := false; shr_s := false |}
                   (e - j) j
                 = ({| shr_m := Zpos m; shr_r := false; shr_s := false |}, e)).
  { destruct j as [|p|p]; [| |lia].
    - cbn [shr]. rewrite Z.pow_0_r, Z.mul_1_r, Z.sub_0_r. reflexivity.
    - cbn [shr]. rewrite iter_pos_nat.
      rewrite <- (positive_nat_Z p) at 1. rewrite shr_exact.
      f_equal. lia. }
  rewrite Hshr. cbn [shr_m loc_of_shr_record round_nearest_even Zdigits2].
  rewrite Hcan, Z.sub_diag. cbn [shr shr_record_of_loc shr_m].
  apply Z.leb_le in Hmax. rewrite Hmax. reflexivity.
Qed.

Lemma new_location_zero Q : new_location (Zpos Q) 0 = loc_Exact.
Proof.
  unfold new_location, new_location_even, new_location_odd.
  destruct (Z.even (Zpos Q)); reflexivity.
Qed.

(** The quotient of two integers whose ratio is the binary64 value
    [m * 2^e] is that value. *)
Lemma SFdiv_exact s P Q m e :
  bounded prec emax m e = true ->
  Zpos P * 2 ^ Z.max (- e) 0 = Zpos m * 2 ^ Z.max e 0 * Zpos Q ->
  SFdiv prec emax (S754_finite s P 0) (S754_finite false Q 0)
  = S754_finite s m e.
Proof.
  intros Hb Heq. pose proof (bounded_unfold m e Hb) as [Hcan Hmax].
  pose proof (digits2_bounds P) as HP.
  pose proof (digits2_bounds Q) as HQ.
  pose proof (digits2_bounds m) as Hm.
  set (dP := Zpos (digits2_pos P)) in *.
  set (dQ := Zpos (digits2_pos Q)) in *.
  set (dm := Zpos (digits2_pos m)) in *.
  assert (HD : dP - dQ <= dm + e).
  { assert (Hlt : 2 ^ (dP - 1 + Z.max (- e) 0) < 2 ^ (dm + Z.max e 0 + dQ)).
    { rewrite !Z.pow_add_r by lia.
      apply Z.le_lt_trans with (Zpos P * 2 ^ Z.max (- e) 0).
      - apply Z.mul_le_mono_nonneg_r; [apply Z.pow_nonneg; lia | lia].
      - rewrite Heq.
        assert (0 < 2 ^ Z.max e 0) by (apply Z.pow_pos_nonneg; lia).
        assert (0 < 2 ^ dm) by (apply Z.pow_pos_nonneg; lia).
        apply Z.le_lt_trans with (2 ^ dm * 2 ^ Z.max e 0 * Zpos Q).
        + apply Z.mul_le_mono_nonneg_r; [lia|].
          apply Z.mul_le_mono_nonneg_r; lia.
        + apply Z.mul_lt_mono_pos_l; [apply Z.mul_pos_pos; lia | lia]. }
    apply Z.pow_lt_mono_r_iff in Hlt; lia. }
  set (e' := Z.min (fexp prec emax (dP - dQ)) 0).
  assert (He' : e' <= e /\ e' <= 0).
  { pose proof (fexp_monotone _ _ HD). unfold e'. lia. }
  destruct He' as [He'e He'0].
  assert (Hcore : SFdiv_core_binary prec emax (Zpos P) 0 (Zpos Q) 0
                  = (Zpos m * 2 ^ (e - e'), e', loc_Exact)).
  { unfold SFdiv_core_binary. cbn [Zdigits2]. fold dP dQ.
    replace (dP + 0 - (dQ + 0)) with (dP - dQ) by lia.
    change (0 - 0) with 0. fold e'.
    assert (Hm' : match 0 - e' with
                  | Zpos _ => Z.shiftl (Zpos P) (0 - e')
                  | Z0 => Zpos P
                  | Zneg _ => 0
                  end = Zpos m * 2 ^ (e - e') * Zpos Q).
    { assert (Hscaled : Zpos P * 2 ^ (- e') = Zpos m * 2 ^ (e - e') * Zpos Q).
      { destruct (Z.le_ge_cases 0 e) as [He | He].
        - rewrite (Z.max_r (- e) 0), (Z.max_l e 0), Z.pow_0_r, Z.mul_1_r in Heq
            by lia.
          rewrite Heq. replace (e - e') with (e + - e') by lia.
          rewrite Z.pow_add_r by lia. lia.
        - rewrite (Z.max_l (- e) 0), (Z.max_r e 0), Z.pow_0_r, Z.mul_1_r in Heq
            by lia.
          replace (- e') with (- e + (e - e')) by lia.
          rewrite Z.pow_add_r, Z.mul_assoc, Heq by lia. lia. }
      destruct (0 - e') as [|p|p] eqn:Hs; [| |lia].
      - replace (- e') with 0 in Hscaled by lia.
        rewrite Z.pow_0_r, Z.mul_1_r in Hscaled. exact Hscaled.
      - rewrite Z.shiftl_mul_pow2 by lia.
        replace (- e') with (Zpos p) in Hscaled by lia. exact Hscaled. }
    rewrite Hm'.
    pose proof (Z_div_mod (Zpos m * 2 ^ (e - e') * Zpos Q) (Zpos Q) ltac:(lia))
      as Hdm.
    destruct (Z.div_eucl (Zpos m * 2 ^ (e - e') * Zpos Q) (Zpos Q)) as [q r].
    destruct Hdm as [Hdm Hr].
    assert (Hq : q = Zpos m * 2 ^ (e - e') /\ r = 0).
    { generalize dependent (Zpos m * 2 ^ (e - e')). intros X _ HX.
      destruct (Z.lt_trichotomy X q) as [Hlt | [Heq' | Hgt]]; [nia | | nia].
      subst q. lia. }
    destruct Hq as [-> ->]. rewrite new_location_zero. reflexivity. }
  unfold SFdiv. rewrite Hcore. cbn [xorb].
  replace (xorb s false) with s by (destruct s; reflexivity).
  replace e' with (e - (e - e')) at 2 by lia.
  apply binary_round_aux_exact; [exact Hb | lia].
Qed.

End Rounding.

(** ** The digit search of [Number::toString] *)

Section Search.

(** Two ways of writing one comparison between [a * 10^i] and [b * 10^j],
    [i] and [j] any integers, with natural exponents. *)
Lemma pow10_le_shift a b u v u' v' :
  0 <= u -> 0 <= v -> 0 <= u' -> 0 <= v' -> u - v = u' - v' ->
  a * 10 ^ u <= b * 10 ^ v -> a * 10 ^ u' <= b * 10 ^ v'.
Proof.
  intros Hu Hv Hu' Hv' Heq H.
  assert (Hp : forall t, 0 <= t -> 0 < 10 ^ t)
    by (intros; apply Z.pow_pos_nonneg; lia).
  apply (Z.mul_le_mono_pos_r _ _ (10 ^ v) (Hp v Hv)).
  rewrite <- !Z.mul_assoc, <- !Z.pow_add_r by lia.
  replace (u' + v) with (u + v') by lia. replace (v' + v) with (v + v') by lia.
  rewrite !Z.pow_add_r, !Z.mul_assoc by lia.
  apply Z.mul_le_mono_nonneg_r; [specialize (Hp v' Hv'); lia | exact H].
Qed.

Lemma pow10_lt_shift a b u v u' v' :
  0 <= u -> 0 <= v -> 0 <= u' -> 0 <= v' -> u - v = u' - v' ->
  a * 10 ^ u < b * 10 ^ v -> a * 10 ^ u' < b * 10 ^ v'.
Proof.
  intros Hu Hv Hu' Hv' Heq H.
  assert (Hp : forall t, 0 <= t -> 0 < 10 ^ t)
    by (intros; apply Z.pow_pos_nonneg; lia).
  apply (Z.mul_lt_mono_pos_r (10 ^ v) _ _ (Hp v Hv)).
  rewrite <- !Z.mul_assoc, <- !Z.pow_add_r by lia.
  replace (u' + v) with (u + v') by lia. replace (v' + v) with (v + v') by lia.
  rewrite !Z.pow_add_r, !Z.mul_assoc by lia.
  apply Z.mul_lt_mono_pos_r; [exact (Hp v' Hv') | exact H].
Qed.

Lemma scale_below_one_spec fuel n num den :
  0 < num -> num < den -> den <= num * 10 ^ Z.of_nat fuel ->
  let r := scale_below_one fuel n num den in
  r <= n /\ num * 10 ^ (n - r) < den <= num * 10 ^ (n - r + 1).
Proof.
  revert n num. induction fuel as [|fuel IH]; intros n num Hnum Hlt Hfuel.
  - cbn in Hfuel. lia.
  - cbn [scale_below_one]. destruct (den <=? 10 * num) eqn:Hten.
    + apply Z.leb_le in Hten. cbn zeta. rewrite Z.sub_diag.
      cbn. lia.
    + apply Z.leb_gt in Hten.
      rewrite Nat2Z.inj_succ, Z.pow_succ_r in Hfuel by lia.
      destruct (IH (n - 1) (10 * num)) as (Hr & Hlo & Hhi); [lia|lia|lia|].
      cbn zeta. set (r := scale_below_one fuel (n - 1) (10 * num) den) in *.
      split; [lia|].
      replace (n - r) with (Z.succ (n - 1 - r)) by lia.
      replace (Z.succ (n - 1 - r) + 1) with (Z.succ (n - 1 - r + 1)) by lia.
      rewrite !Z.pow_succ_r by lia. lia.
Qed.

Lemma decimal_order_spec num den :
  0 < num -> 0 < den -> den <= num * 10 ^ 400 ->
  decimal_order_of num den (decimal_order num den).
Proof.
  intros Hnum Hden Hfuel. unfold decimal_order, decimal_order_of.
  destruct (den <=? num) eqn:Hle.
  - apply Z.leb_le in Hle.
    assert (Hq : 1 <= num / den) by (apply Z.div_le_lower_bound; lia).
    destruct (digits_of_spec (Z.to_N (num / den)))
      as (_ & _ & Hhi & Hlen & Hlo).
    set (l := length (digits_of (Z.to_N (num / den)))) in *.
    assert (Hlo' : 10 ^ (Z.of_nat l - 1) <= num / den).
    { assert (H0 : (0 < Z.to_N (num / den))%N) by lia.
      apply Hlo, N2Z.inj_le in H0.
      rewrite N2Z.inj_pow, Z2N.id in H0 by lia.
      replace (Z.of_N (N.of_nat (l - 1))) with (Z.of_nat l - 1) in H0 by lia.
      exact H0. }
    assert (Hhi' : num / den < 10 ^ Z.of_nat l).
    { apply N2Z.inj_lt in Hhi. rewrite N2Z.inj_pow, Z2N.id in Hhi by lia.
      replace (Z.of_N (N.of_nat l)) with (Z.of_nat l) in Hhi by lia.
      exact Hhi. }
    rewrite (Z.max_l (Z.of_nat l - 1) 0), (Z.max_r (1 - Z.of_nat l) 0),
      (Z.max_r (- Z.of_nat l) 0), (Z.max_l (Z.of_nat l) 0) by lia.
    rewrite Z.pow_0_r, !Z.mul_1_r.
    pose proof (Z.mul_div_le num den Hden) as Hfloor.
    pose proof (Z.mul_succ_div_gt num den Hden) as Hceil.
    split; nia.
  - apply Z.leb_gt in Hle.
    pose proof (scale_below_one_spec 400 0 num den Hnum Hle Hfuel) as Hspec.
    cbn zeta in Hspec. set (r := scale_below_one 400 0 num den) in *.
    destruct Hspec as (Hr & Hlo & Hhi).
    rewrite (Z.max_r (r - 1) 0), (Z.max_l (1 - r) 0),
      (Z.max_l (- r) 0), (Z.max_r r 0) by lia.
    rewrite Z.pow_0_r, !Z.mul_1_r.
    replace (0 - r + 1) with (1 - r) in Hhi by lia.
    replace (0 - r) with (- r) in Hlo by lia. lia.
Qed.

Lemma SFeqb_finite y m e :
  SFeqb y (S754_finite false m e) = true -> y = S754_finite false m e.
Proof.
  unfold SFeqb, SFcompare.
  destruct y as [[]|[]| |[] m' e']; try discriminate.
  destruct (Z.compare_spec e' e) as [-> | |]; try discriminate.
  change (Pos.compare_cont Eq m' m) with (Pos.compare m' m).
  destruct (Pos.compare_spec m' m) as [-> | |]; try discriminate.
  reflexivity.
Qed.

Lemma SFeqb_finite_refl m e :
  SFeqb (S754_finite false m e) (S754_finite false m e) = true.
Proof.
  unfold SFeqb, SFcompare. rewrite Z.compare_refl.
  change (Pos.compare_cont Eq m m) with (Pos.compare m m).
  rewrite Pos.compare_refl. reflexivity.
Qed.

(** The sign of a decimal only decides the sign of its conversion. *)
Lemma decimal_to_number_negative d e10 m e :
  decimal_to_number false d e10 = S754_finite false m e ->
  forall neg, decimal_to_number neg d e10 = S754_finite neg m e.
Proof.
  intros H neg. destruct d as [|p]; [discriminate|].
  unfold decimal_to_number, SFdiv in *.
  destruct (SFdiv_core_binary _ _ _ _ _ _) as [[mz ez] lz].
  unfold binary_round_aux in *.
  destruct (shr_fexp prec emax mz ez lz) as [mrs' e'].
  destruct (shr_fexp prec emax _ e' loc_Exact) as [mrs'' e''].
  replace (xorb neg false) with neg by (destruct neg; reflexivity).
  cbn [xorb] in H.
  destruct (shr_m mrs''); try discriminate.
  destruct (e'' <=? emax - prec); try discriminate.
  injection H as -> ->. reflexivity.
Qed.

Lemma decimal_to_number_exact d e10 m e :
  bounded prec emax m e = true ->
  Z.of_N d * 10 ^ Z.max e10 0 * 2 ^ Z.max (- e) 0
  = Zpos m * 2 ^ Z.max e 0 * 10 ^ Z.max (- e10) 0 ->
  decimal_to_number false d e10 = S754_finite false m e.
Proof.
  intros Hb Heq.
  assert (Hp : forall b t, 0 < b -> 0 <= t -> 0 < b ^ t)
    by (intros; apply Z.pow_pos_nonneg; lia).
  pose proof (Hp 10 (Z.max e10 0) ltac:(lia) ltac:(lia)).
  pose proof (Hp 10 (Z.max (- e10) 0) ltac:(lia) ltac:(lia)).
  pose proof (Hp 2 (Z.max e 0) ltac:(lia) ltac:(lia)).
  pose proof (Hp 2 (Z.max (- e) 0) ltac:(lia) ltac:(lia)).
  destruct d as [|p].
  - exfalso. cbn [Z.of_N] in Heq. rewrite !Z.mul_0_l in Heq.
    assert (0 < Zpos m * 2 ^ Z.max e 0 * 10 ^ Z.max (- e10) 0)
      by (repeat apply Z.mul_pos_pos; lia).
    lia.
  - unfold decimal_to_number. apply SFdiv_exact; [exact Hb|].
    rewrite !Z2Pos.id by (try apply Z.mul_pos_pos; lia).
    exact Heq.
Qed.

Section Candidates.

Variables (x : number) (num den n : Z).
Hypothesis Hden : 0 < den.
Hypothesis Horder : decimal_order_of num den n.

Lemma floor_candidate k :
  1 <= k ->
  let num' := num * 10 ^ Z.max (k - n) 0 in
  let den' := den * 10 ^ Z.max (- (k - n)) 0 in
  0 < den' /\ 10 ^ (k - 1) <= num' / den' < 10 ^ k.
Proof.
  intros Hk num' den'. destruct Horder as [Hlo Hhi].
  assert (Hp : forall t, 0 <= t -> 0 < 10 ^ t)
    by (intros; apply Z.pow_pos_nonneg; lia).
  assert (Hden' : 0 < den') by (apply Z.mul_pos_pos; [lia | apply Hp; lia]).
  split; [exact Hden'|]. split.
  - apply Z.div_le_lower_bound; [exact Hden'|].
    unfold den', num'. rewrite <- Z.mul_assoc, <- Z.pow_add_r by lia.
    eapply pow10_le_shift; [| | | | |exact Hlo]; lia.
  - apply Z.div_lt_upper_bound; [exact Hden'|].
    unfold den', num'. rewrite <- Z.mul_assoc, <- Z.pow_add_r by lia.
    eapply pow10_lt_shift; [| | | | |exact Hhi]; lia.
Qed.

Lemma shortest_at_sound k s n' :
  1 <= k ->
  shortest_at x num den n k = Some (s, n') ->
  number_equal (decimal_to_number false s (n' - k)) x = true
  /\ 10 ^ (k - 1) <= Z.of_N s < 10 ^ k.
Proof.
  intros Hk. pose proof (floor_candidate k Hk) as Hfloor.
  cbn zeta in Hfloor. destruct Hfloor as (_ & Hlo & Hhi).
  unfold shortest_at.
  set (lo := num * 10 ^ Z.max (k - n) 0 / (den * 10 ^ Z.max (- (k - n)) 0)) in *.
  assert (Hpow : 0 < 10 ^ (k - 1)) by (apply Z.pow_pos_nonneg; lia).
  assert (Hsucc : 10 ^ k = 10 * 10 ^ (k - 1)).
  { replace k with (Z.succ (k - 1)) at 1 by lia. apply Z.pow_succ_r. lia. }
  set (above := if lo + 1 <? 10 ^ k then (Z.to_N (lo + 1), n)
                else (Z.to_N (10 ^ (k - 1)), n + 1)).
  assert (Habove : 10 ^ (k - 1) <= Z.of_N (fst above) < 10 ^ k).
  { unfold above. destruct (lo + 1 <? 10 ^ k) eqn:Hwrap; cbn [fst].
    - apply Z.ltb_lt in Hwrap. lia.
    - lia. }
  assert (Hbelow : 10 ^ (k - 1) <= Z.of_N (Z.to_N lo) < 10 ^ k) by lia.
  destruct above as [sa na].
  destruct (number_equal (decimal_to_number false (Z.to_N lo) (n - k)) x)
    eqn:Hb;
    destruct (number_equal (decimal_to_number false sa (na - k)) x) eqn:Ha.
  - repeat match goal with
           | |- context [if ?c then _ else _] => destruct c
           end; intros [= <- <-]; auto.
  - intros [= <- <-]; auto.
  - intros [= <- <-]; auto.
  - discriminate.
Qed.

Lemma shortest_from_finds fuel k k0 :
  k <= k0 <= k + Z.of_nat fuel ->
  is_Some (shortest_at x num den n k0) ->
  exists s n' k',
    shortest_from fuel x num den n k = (s, n', k')
    /\ shortest_at x num den n k' = Some (s, n')
    /\ k <= k' <= k0.
Proof.
  revert k. induction fuel as [|fuel IH]; intros k Hk Hk0.
  - assert (k = k0) by lia. subst k0. destruct Hk0 as [[s n'] Hk0].
    exists s, n', k. split; [cbn [shortest_from]; rewrite Hk0; reflexivity|].
    split; [exact Hk0 | lia].
  - cbn [shortest_from].
    destruct (shortest_at x num den n k) as [[s n']|] eqn:Hat.
    + exists s, n', k. split; [reflexivity|]. split; [exact Hat | lia].
    + assert (k <> k0).
      { intros ->. rewrite Hat in Hk0. destruct Hk0 as [? [=]]. }
      destruct (IH (k + 1)) as (s & n' & k' & Hfrom & Hat' & Hk');
        [lia | exact Hk0 |].
      exists s, n', k'. split; [exact Hfrom|]. split; [exact Hat' | lia].
Qed.

End Candidates.

End Search.

(** ** [parseFloat] after [Number::toString] *)

Section ReadBack.

(** With enough digits the decimal just below [m * 2^e] is [m * 2^e]
    itself, which is a solution of step 5. *)
Lemma shortest_at_exact m e n k :
  bounded prec emax m e = true ->
  decimal_order_of (Zpos m * 2 ^ Z.max e 0) (2 ^ Z.max (- e) 0) n ->
  1 <= k ->
  Z.max (- e) 0 <= k - n ->
  is_Some (shortest_at (S754_finite false m e)
             (Zpos m * 2 ^ Z.max e 0) (2 ^ Z.max (- e) 0) n k).
Proof.
  intros Hb Horder Hk Hsh.
  set (num := Zpos m * 2 ^ Z.max e 0) in *.
  set (den := 2 ^ Z.max (- e) 0) in *.
  assert (Hp : forall b t, 0 < b -> 0 <= t -> 0 < b ^ t)
    by (intros; apply Z.pow_pos_nonneg; lia).
  assert (Hden : 0 < den) by (apply Hp; lia).
  assert (Hnum : 0 < num) by (apply Z.mul_pos_pos; [lia | apply Hp; lia]).
  set (L := num * 5 ^ (k - n) * 2 ^ (k - n - Z.max (- e) 0)).
  assert (HL : num * 10 ^ (k - n) = L * den).
  { unfold L, den. change 10 with (2 * 5). rewrite Z.pow_mul_l.
    replace (k - n) with (Z.max (- e) 0 + (k - n - Z.max (- e) 0)) at 1 by lia.
    rewrite Z.pow_add_r by lia. ring. }
  assert (HLpos : 0 < L).
  { unfold L. repeat apply Z.mul_pos_pos; try apply Hp; lia. }
  assert (Hbelow :
    number_equal
      (decimal_to_number false
         (Z.to_N (num * 10 ^ Z.max (k - n) 0 / (den * 10 ^ Z.max (- (k - n)) 0)))
         (n - k)) (S754_finite false m e) = true).
  { rewrite (Z.max_l (k - n) 0), (Z.max_r (- (k - n)) 0), Z.pow_0_r, Z.mul_1_r
      by lia.
    rewrite HL, Z.div_mul by lia.
    rewrite (decimal_to_number_exact (Z.to_N L) (n - k) m e Hb).
    - apply SFeqb_finite_refl.
    - rewrite Z2N.id by lia.
      rewrite (Z.max_r (n - k) 0), Z.pow_0_r, Z.mul_1_r by lia.
      fold den num. replace (Z.max (- (n - k)) 0) with (k - n) by lia.
      lia. }
  unfold shortest_at. cbn zeta. rewrite Hbelow.
  repeat match goal with
         | |- context [if ?c then _ else _] => destruct c
         | |- context [match ?c with (_, _) => _ end] => destruct c
         end; eexists; reflexivity.
Qed.

Lemma bounded_range m e :
  bounded prec emax m e = true ->
  Zpos m < 2 ^ 53 /\ -1074 <= e <= 971.
Proof.
  intros Hb. apply bounded_unfold in Hb as [Hcan Hmax].
  pose proof (digits2_bounds m) as [_ Hm].
  unfold fexp, emin, prec, emax in *.
  assert (Hd : Zpos (digits2_pos m) <= 53) by lia.
  split; [|lia].
  apply Z.lt_le_trans with (2 ^ Zpos (digits2_pos m)); [exact Hm|].
  apply Z.pow_le_mono_r; lia.
Qed.

(** [parseFloat] reads back what [Number::toString] prints. *)
Theorem Number_toString_reads_back x :
  valid_binary prec emax x = true -> reads_back x.
Proof.
  intros Hv Hnz. destruct x as [s|s| |s m e].
  - destruct s; [contradiction Hnz; reflexivity | vm_compute; reflexivity].
  - destruct s; vm_compute; reflexivity.
  - vm_compute; reflexivity.
  - cbn [valid_binary] in Hv. clear Hnz.
    destruct (bounded_range m e Hv) as (Hm & Hemin & Hemax).
    assert (Hp : forall b t, 0 < b -> 0 <= t -> 0 < b ^ t)
      by (intros; apply Z.pow_pos_nonneg; lia).
    unfold Number_toString.
    set (num := Zpos m * 2 ^ Z.max e 0).
    set (den := 2 ^ Z.max (- e) 0).
    set (n := decimal_order num den).
    assert (Hden : 0 < den) by (apply Hp; lia).
    assert (Hnum : 0 < num) by (apply Z.mul_pos_pos; [lia | apply Hp; lia]).
    assert (Hfuel : den <= num * 10 ^ 400).
    { apply Z.le_trans with (2 ^ 1074).
      - apply Z.pow_le_mono_r; lia.
      - apply Z.le_trans with (1 * 10 ^ 400).
        + apply Z.leb_le. vm_compute. reflexivity.
        + apply Z.mul_le_mono_nonneg_r; [apply Z.pow_nonneg|]; lia. }
    pose proof (decimal_order_spec num den Hnum Hden Hfuel) as Horder.
    fold n in Horder.
    assert (Hn : n + Z.max (- e) 0 <= 1100).
    { destruct (Z.le_gt_cases n 0) as [Hn0 | Hn1]; [lia|].
      destruct Horder as [Hlo _].
      rewrite (Z.max_l (n - 1) 0), (Z.max_r (1 - n) 0), Z.pow_0_r, Z.mul_1_r
        in Hlo by lia.
      assert (H210 : 2 ^ (n - 1) <= 10 ^ (n - 1))
        by (apply Z.pow_le_mono_l; lia).
      assert (Hlt : 2 ^ (Z.max (- e) 0 + (n - 1)) < 2 ^ (53 + Z.max e 0)).
      { rewrite !Z.pow_add_r by lia. fold den.
        apply Z.le_lt_trans with num.
        - apply Z.le_trans with (den * 10 ^ (n - 1)); [|exact Hlo].
          apply Z.mul_le_mono_nonneg_l; lia.
        - unfold num. apply Z.mul_lt_mono_pos_r; [apply Hp; lia | exact Hm]. }
      apply Z.pow_lt_mono_r_iff in Hlt; lia. }
    set (k0 := Z.max 1 (n + Z.max (- e) 0)).
    assert (Hexact : is_Some (shortest_at (S754_finite false m e) num den n k0)).
    { apply shortest_at_exact; [exact Hv | exact Horder | lia | lia]. }
    destruct (shortest_from_finds (S754_finite false m e) num den n 1100 1 k0)
      as (d & n' & k & Hfrom & Hat & Hk); [lia | exact Hexact |].
    destruct (shortest_at_sound (S754_finite false m e) num den n Hden
                Horder k d n') as [Hback Hd]; [lia | exact Hat |].
    apply SFeqb_finite in Hback.
    rewrite Hfrom, parseFloat_format_decimal by (exact Hd || lia).
    apply decimal_to_number_negative. exact Hback.
Qed.

End ReadBack.

(** * Properties of the normalizer *)

Section Trimming.

Lemma dropWhile_split {A} (p : A -> bool) (l : list A) :
  exists dropped,
    l = dropped ++ dropWhile p l /\ Forall (fun x => p x = true) dropped.
Proof.
  induction l as [|x l IH]; simpl.
  - exists []. split; [reflexivity | constructor].
  - destruct (p x) eqn:Hx.
    + destruct IH as (d & Hd & Hall). exists (x :: d). split.
      * simpl. congruence.
      * constructor; assumption.
    + exists []. split; [reflexivity | constructor].
Qed.

Lemma dropWhile_head {A} (p : A -> bool) (l : list A) :
  match dropWhile p l with x :: _ => p x = false | [] => True end.
Proof.
  induction l as [|x l IH]; simpl; [exact I|].
  destruct (p x) eqn:Hx; [exact IH | exact Hx].
Qed.

Lemma dropWhile_unchanged {A} (p : A -> bool) (l : list A) :
  match l with x :: _ => p x = false | [] => True end ->
  dropWhile p l = l.
Proof. destruct l as [|x l]; simpl; [reflexivity|]. intros ->. reflexivity. Qed.

Lemma trimStart_split s :
  exists l, s = l ++ trimStart s /\ all_white_space l.
Proof. apply dropWhile_split. Qed.

Lemma trimEnd_split s :
  exists r, s = trimEnd s ++ r /\ all_white_space r.
Proof.
  destruct (dropWhile_split is_white_space (rev s)) as (d & Hd & Hall).
  exists (rev d). split.
  - unfold trimEnd. rewrite <- rev_app_distr, <- Hd, rev_involutive.
    reflexivity.
  - apply List.Forall_rev. exact Hall.
Qed.

Lemma trimStart_clean s : no_leading_space (trimStart s).
Proof. apply dropWhile_head. Qed.

Lemma trimEnd_clean s : no_trailing_space (trimEnd s).
Proof.
  unfold no_trailing_space, trimEnd. rewrite rev_involutive.
  apply dropWhile_head.
Qed.

Lemma trimEnd_keeps_start s :
  no_leading_space s -> no_leading_space (trimEnd s).
Proof.
  intros Hs. destruct (trimEnd_split s) as (r & Hr & _).
  destruct (trimEnd s) as [|c t]; [exact I|].
  rewrite Hr in Hs. exact Hs.
Qed.

Lemma trim_split s :
  exists l r, s = l ++ trim s ++ r /\ all_white_space l /\ all_white_space r.
Proof.
  destruct (trimStart_split s) as (l & Hl & Hwl).
  destruct (trimEnd_split (trimStart s)) as (r & Hr & Hwr).
  exists l, r. unfold trim. rewrite <- Hr. auto.
Qed.

Lemma trim_clean s : no_leading_space (trim s) /\ no_trailing_space (trim s).
Proof.
  split; [apply trimEnd_keeps_start, trimStart_clean | apply trimEnd_clean].
Qed.

Lemma trim_unchanged s :
  no_leading_space s -> no_trailing_space s -> trim s = s.
Proof.
  intros Hl Hr. unfold trim, trimStart.
  rewrite (dropWhile_unchanged _ s Hl).
  unfold trimEnd. rewrite (dropWhile_unchanged _ (rev s) Hr).
  apply rev_involutive.
Qed.

Lemma trim_trim s : trim (trim s) = trim s.
Proof. apply trim_unchanged; apply trim_clean. Qed.

End Trimming.

Section Normalizer.

Variable host : hostType.

Lemma normalizeValue_VString s :
  normalizeValue host (VString s)
  = Normal {| type := "string"; value := VString (trim s) |}.
Proof. reflexivity. Qed.

Lemma normalizeValue_VNumber x :
  normalizeValue host (VNumber x)
  = Normal {| type := "number";
              value := VNumber (parseFloat_string (Number_toString x)) |}.
Proof. reflexivity. Qed.

(** A Proxy is a function or an object to [typeof]. *)
Lemma typeof_VProxy id target handler :
  typeof (VProxy id target handler) = "function"%string
  \/ typeof (VProxy id target handler) = "object"%string.
Proof. cbn [typeof]. destruct (IsCallable _); auto. Qed.

(** The three branches of the [switch]. *)
Lemma typeof_kind v :
  (exists s, v = VString s) \/ (exists x, v = VNumber x)
  \/ (typeof v <> "string"%string /\ typeof v <> "number"%string).
Proof.
  destruct v; eauto; right; right; try (split; discriminate).
  destruct (typeof_VProxy id v handler) as [-> | ->]; split; discriminate.
Qed.

(** The [default] branch, where [typeof] gave neither "string" nor
    "number". *)
Lemma normalizeValue_default v :
  typeof v <> "string"%string ->
  typeof v <> "number"%string ->
  normalizeValue host v
  = (isArray ← Array_isArray v;
     isFile ← is_File host v;
     Normal (if (-1 <? indexOf [VUndefined; VNull] v)%Z
             then {| type := "nullish"; value := VNull |}
             else {| type := if isFile : bool then "file"
                             else if isArray : bool then "array"
                             else typeof v;
                     value := v |})).
Proof.
  intros Hs Hn. unfold normalizeValue.
  destruct (String.eqb_spec (typeof v) "string") as [H|_]; [contradiction|].
  destruct (String.eqb_spec (typeof v) "number") as [H|_]; [contradiction|].
  destruct (Array_isArray v) as [isArray|e]; [|reflexivity].
  cbn [mbind completion_bind]. unfold mode, is_File, global_File.
  destruct (module_exports host); cbn [String.eqb Ascii.eqb Bool.eqb].
  - cbn [mbind completion_bind]. destruct (_ <? _)%Z; reflexivity.
  - destruct (File host); [|reflexivity]. cbn [mbind completion_bind].
    destruct (instanceof_File v) as [isFile|e]; [|reflexivity].
    cbn [mbind completion_bind]. destruct (_ <? _)%Z; reflexivity.
Qed.

(** [[undefined, null].indexOf(v) > -1] tells [undefined] and [null] from
    the rest. *)
Lemma indexOf_nullish v :
  (-1 <? indexOf [VUndefined; VNull] v)%Z = true
  <-> v = VUndefined \/ v = VNull.
Proof.
  destruct v; cbn; split; intros H; try discriminate H; auto;
    destruct H as [H | H]; discriminate H.
Qed.

(** [undefined] and [null] go the same way. *)
Lemma normalizeValue_VNull :
  normalizeValue host VNull = normalizeValue host VUndefined.
Proof. destruct host as [[] []]; reflexivity. Qed.

(** The ways [normalizeValue] returns. *)
Lemma normalizeValue_returned v nv :
  normalizeValue host v = Normal nv ->
  (exists s, v = VString s
             /\ nv = {| type := "string"; value := VString (trim s) |})
  \/ (exists x, v = VNumber x
                /\ nv = {| type := "number";
                           value := VNumber (parseFloat_string
                                               (Number_toString x)) |})
  \/ ((v = VUndefined \/ v = VNull)
      /\ nv = {| type := "nullish"; value := VNull |})
  \/ (typeof v <> "string"%string /\ typeof v <> "number"%string
      /\ ~ (v = VUndefined \/ v = VNull)
      /\ exists isArray isFile : bool,
           Array_isArray v = Normal isArray
           /\ is_File host v = Normal isFile
           /\ nv = {| type := if isFile then "file"
                              else if isArray then "array"
                              else typeof v;
                      value := v |}).
Proof.
  destruct (typeof_kind v) as [[s ->] | [[x ->] | [Hs Hn]]].
  - rewrite normalizeValue_VString. intros [= <-]. left. eauto.
  - rewrite normalizeValue_VNumber. intros [= <-]. right. left. eauto.
  - rewrite (normalizeValue_default v Hs Hn). intros Hnv. right. right.
    destruct (Array_isArray v) as [isArray|e]; [|discriminate Hnv].
    cbn [mbind completion_bind] in Hnv.
    destruct (is_File host v) as [isFile|e] eqn:Hfile; [|discriminate Hnv].
    cbn [mbind completion_bind] in Hnv.
    destruct (-1 <? indexOf [VUndefined; VNull] v)%Z eqn:Hnullish.
    + left. apply indexOf_nullish in Hnullish. split; congruence.
    + right. split; [exact Hs|]. split; [exact Hn|]. split.
      * rewrite <- indexOf_nullish. congruence.
      * exists isArray, isFile. repeat split. congruence.
Qed.

(** What [typeof] can answer. *)
Lemma typeof_known v :
  In (typeof v)
     [ "undefined"; "object"; "boolean"; "number"; "string"; "bigint";
       "symbol"; "function" ]%string.
Proof.
  destruct v; cbn [typeof]; try destruct (IsCallable _); cbn; tauto.
Qed.

Lemma typeof_undefined v :
  typeof v = "undefined"%string
  <-> v = VUndefined \/ exists id, v = VHTMLDDA id.
Proof.
  split.
  - destruct v; cbn [typeof]; try destruct (IsCallable _);
      intros H; try discriminate H; eauto.
  - intros [-> | [id ->]]; reflexivity.
Qed.

(** Only the inspection of a Proxy can throw, and the name [File] where
    the host does not define it: otherwise [normalizeValue] returns. *)
Lemma normalizeValue_returns v :
  provides_File host ->
  ~ is_Proxy v ->
  exists nv, normalizeValue host v = Normal nv.
Proof.
  unfold provides_File. intros Hhost Hv.
  destruct host as [[] []]; cbn in Hhost;
    try (discriminate Hhost; reflexivity); destruct v;
    try (cbn -[trim parseFloat_string Number_toString]; eauto; fail).
  all: exfalso; apply Hv; exact I.
Qed.


(** C3. For every string [s], [normalizeValue] returns the tag "string"
    and the value [s.trim()], which is [s] without the white space it
    starts and ends with: [s] is [trim s] between two runs of white space,
    and [trim s] neither starts nor ends with white space. *)
Theorem normalizeValue_string s :
  normalizeValue host (VString s)
  = Normal {| type := "string"; value := VString (trim s) |}
  /\ (exists l r,
        s = l ++ trim s ++ r /\ all_white_space l /\ all_white_space r)
  /\ no_leading_space (trim s)
  /\ no_trailing_space (trim s).
Proof.
  split; [reflexivity|]. split; [apply trim_split | apply trim_clean].
Qed.


(** C5. For every Number [x], [normalizeValue] returns the tag "number"
    and the value [parseFloat] reads from the string form of [x].  What
    that reading yields is [x] itself, but for [-0], whose string form is
    "0" and which comes back as [+0]; the Number whose string form is not
    a numeric literal, NaN, comes back as NaN and is not rejected. *)
Theorem normalizeValue_number x :
  normalizeValue host (VNumber x)
  = Normal {| type := "number";
              value := VNumber (parseFloat_string (Number_toString x)) |}
  /\ (is_Number x -> x <> negative_zero ->
      parseFloat_string (Number_toString x) = x)
  /\ parseFloat_string (Number_toString negative_zero) = S754_zero false
  /\ normalizeValue host (VNumber NaN)
     = Normal {| type := "number"; value := VNumber NaN |}.
Proof.
  split; [apply normalizeValue_VNumber|].
  split; [apply Number_toString_reads_back|].
  split; vm_compute; reflexivity.
Qed.


(** A Number other than [-0] is normalized to itself; [-0] becomes [+0]. *)
Lemma normalizeValue_number_unchanged x :
  is_Number x ->
  x <> negative_zero ->
  normalizeValue host (VNumber x)
  = Normal {| type := "number"; value := VNumber x |}.
Proof.
  intros Hx Hne. rewrite normalizeValue_VNumber.
  rewrite (Number_toString_reads_back x Hx Hne). reflexivity.
Qed.

(** C7. Normalizing the value of an already normalized string or number
    gives the same tag and the same value again: [trim] leaves a trimmed
    string alone, and [parseFloat] reads back from the string form of a
    Number that very Number ([-0], which is normalized to [+0], apart). *)
Theorem normalizeValue_idempotent v0 nv :
  (exists s, v0 = VString s) \/ (exists x, v0 = VNumber x /\ is_Number x) ->
  normalizeValue host v0 = Normal nv ->
  normalizeValue host (value nv) = Normal nv.
Proof.
  intros [[s ->] | (x & -> & Hx)].
  - rewrite normalizeValue_VString. intros [= <-]. cbn [value].
    rewrite normalizeValue_VString, trim_trim. reflexivity.
  - assert (Hzero : x = negative_zero \/ x <> negative_zero).
    { destruct x as [[]| | |]; try (right; discriminate).
      left; reflexivity. }
    destruct Hzero as [-> | Hne].
    + intros [= <-]. vm_compute. reflexivity.
    + rewrite (normalizeValue_number_unchanged x Hx Hne). intros [= <-].
      cbn [value]. apply normalizeValue_number_unchanged; assumption.
Qed.

End Normalizer.


Lemma normalizeValue_number_witness :
  parseFloat_string (Number_toString one_tenth) = one_tenth.
Proof.
  destruct (normalizeValue_number node one_tenth) as (_ & Hback & _).
  apply Hback; [reflexivity | discriminate].
Defined.



Lemma normalizeValue_idempotent_witness :
  normalizeValue browser
    (value {| type := "number"; value := VNumber one_tenth |})
  = Normal {| type := "number"; value := VNumber one_tenth |}.
Proof.
  apply (normalizeValue_idempotent browser (VNumber one_tenth)).
  - right. exists one_tenth. split; reflexivity.
  - vm_compute. reflexivity.
Defined.

(** * Properties of the validator *)

Section Binding.

Context {W : Type}.

Lemma bind_normal {A B} (m : M (W := W) A) (k : A -> M B) w a w1 :
  m w = (Normal a, w1) -> (m ≫= k) w = k a w1.
Proof. intros Hm. unfold mbind, M_bind. rewrite Hm. reflexivity. Qed.

Lemma bind_throw {A B} (m : M (W := W) A) (k : A -> M B) w e w1 :
  m w = (Throw e, w1) -> (m ≫= k) w = (Throw e, w1).
Proof. intros Hm. unfold mbind, M_bind. rewrite Hm. reflexivity. Qed.

Lemma bind_returned {A B} (m : M (W := W) A) (k : A -> M B) w b w' :
  (m ≫= k) w = (Normal b, w') ->
  exists a w1, m w = (Normal a, w1) /\ k a w1 = (Normal b, w').
Proof.
  unfold mbind, M_bind. destruct (m w) as [[a|e] w1]; [eauto | discriminate].
Qed.

Lemma lift_returned {A} (c : completion A) (w : W) a w' :
  lift c w = (Normal a, w') -> c = Normal a /\ w' = w.
Proof. unfold lift. intros [= -> ->]. auto. Qed.

End Binding.

Section Recording.

(** What an assignment to [errors] leaves under each name. *)
Lemma OrdinarySet_lookup o f m g :
  OrdinarySet o f m !! g
  = if bool_decide (f = g) && negb (bool_decide (g = js "__proto__"))
    then Some m else o !! g.
Proof.
  unfold OrdinarySet. case_bool_decide as Hf.
  - case_bool_decide as Hfg; [|reflexivity].
    rewrite bool_decide_eq_true_2 by congruence. reflexivity.
  - case_bool_decide as Hfg.
    + rewrite bool_decide_eq_false_2 by congruence. subst g.
      apply lookup_insert_eq.
    + apply lookup_insert_ne. exact Hfg.
Qed.

(** What the recorded results leave in [errors] and [valid]. *)

Lemma errors_record_results f results validation g :
  errors (fold_left (record_result f) results validation) !! g
  = match last (if bool_decide (f = g)
                   && negb (bool_decide (g = js "__proto__"))
                then failures results else []) with
    | Some m => Some m
    | None => errors validation !! g
    end.
Proof.
  revert validation.
  induction results as [|r results IH]; intros validation.
  - simpl. destruct (_ && _); reflexivity.
  - cbn [fold_left]. rewrite IH. unfold record_result, failures.
    cbn [List.filter]. destruct (pass r); cbn [negb]; [reflexivity|].
    cbn [List.map errors]. rewrite OrdinarySet_lookup.
    destruct (_ && _).
    + rewrite last_cons. destruct (last _); reflexivity.
    + reflexivity.
Qed.

Lemma errors_record_checks log validation g :
  errors (fold_left record_check log validation) !! g
  = if bool_decide (g = js "__proto__") then errors validation !! g
    else match last (failures_of g log) with
         | Some m => Some m
         | None => errors validation !! g
         end.
Proof.
  revert validation.
  induction log as [|c log IH]; intros validation.
  - cbn. destruct (bool_decide _); reflexivity.
  - cbn [fold_left]. rewrite IH. unfold record_check.
    rewrite errors_record_results.
    case_bool_decide as Hg.
    + rewrite andb_false_r. reflexivity.
    + rewrite andb_true_r. unfold failures_of. cbn [flat_map].
      rewrite last_app. fold (failures_of g log).
      destruct (last (failures_of g log)); reflexivity.
Qed.

Lemma valid_record_results f results validation :
  valid (fold_left (record_result f) results validation)
  = valid validation && forallb pass results.
Proof.
  revert validation.
  induction results as [|r results IH]; intros validation.
  - simpl. rewrite andb_true_r. reflexivity.
  - cbn [fold_left forallb]. rewrite IH. unfold record_result.
    destruct (pass r); cbn [negb valid andb].
    + reflexivity.
    + rewrite andb_false_r. reflexivity.
Qed.

Lemma valid_record_checks log validation :
  valid (fold_left record_check log validation)
  = valid validation && forallb (fun c => forallb pass (results c)) log.
Proof.
  revert validation.
  induction log as [|c log IH]; intros validation.
  - simpl. rewrite andb_true_r. reflexivity.
  - cbn [fold_left forallb]. rewrite IH. unfold record_check.
    rewrite valid_record_results, andb_assoc. reflexivity.
Qed.


End Recording.

Section Runs.

Context {W : Type}.
Variable host : hostType.

Implicit Types (rules : rulesType (W := W)) (data : dataType) (w : W).

Lemma validate_unfold data rules :
  validate host data (Some rules)
  = forEach (keys rules) (on_field host data rules)
      {| errors := ∅; valid := true |}.
Proof. reflexivity. Qed.

(** The three ways the callback of [forEach] ends: the evaluator returns
    a result object, it returns no object, it throws. *)
Lemma on_rule_returned f nv rule validation w result w1 :
  rule nv w = (Normal (Some result), w1) ->
  on_rule f nv rule validation w
  = (Normal (record_result f validation result), w1).
Proof.
  intros Hrule. unfold on_rule, record_result, mbind, M_bind, lift, property.
  rewrite Hrule. destruct (negb (pass result)); reflexivity.
Qed.

Lemma on_rule_nullish f nv rule validation w w1 :
  rule nv w = (Normal None, w1) ->
  on_rule f nv rule validation w = (Throw TypeError, w1).
Proof.
  intros Hrule. unfold on_rule, mbind, M_bind, lift, property.
  rewrite Hrule. reflexivity.
Qed.

Lemma on_rule_thrown f nv rule validation w e w1 :
  rule nv w = (Throw e, w1) ->
  on_rule f nv rule validation w = (Throw e, w1).
Proof. intros Hrule. unfold on_rule. apply bind_throw. exact Hrule. Qed.

Lemma on_rule_fails f nv rule validation w e w1 :
  fails_with rule nv w e w1 ->
  on_rule f nv rule validation w = (Throw e, w1).
Proof.
  intros [Hthrow | [Hnone ->]];
    [apply on_rule_thrown | apply on_rule_nullish]; assumption.
Qed.

(** The rules of one field: a normal return of [forEach] means every
    rule was invoked and returned a result object. *)
Lemma forEach_rules_returned f nv declared validation w v w' :
  forEach declared (on_rule f nv) validation w = (Normal v, w') ->
  exists res,
    invoked nv declared w res w'
    /\ v = fold_left (record_result f) res validation.
Proof.
  revert validation w.
  induction declared as [|rule declared IH]; intros validation w.
  - intros [= <- <-]. exists []. split; [constructor | reflexivity].
  - cbn [forEach]. intros Hrun.
    apply bind_returned in Hrun as (v1 & w1 & Hrule & Hrest).
    destruct (rule nv w) as [[[result|]|e] w0] eqn:Hcall.
    + rewrite (on_rule_returned f _ _ validation _ _ _ Hcall) in Hrule.
      injection Hrule as <- <-.
      destruct (IH _ _ Hrest) as (res & Hinv & ->).
      exists (result :: res). split; [|reflexivity].
      econstructor; eassumption.
    + rewrite (on_rule_nullish f _ _ validation _ _ Hcall) in Hrule.
      discriminate Hrule.
    + rewrite (on_rule_thrown f _ _ validation _ _ _ Hcall) in Hrule.
      discriminate Hrule.
Qed.

Lemma forEach_rules_invoked f nv declared validation w res w' :
  invoked nv declared w res w' ->
  forEach declared (on_rule f nv) validation w
  = (Normal (fold_left (record_result f) res validation), w').
Proof.
  intros Hinv. revert validation.
  induction Hinv as [w|rule declared result res w w1 w2 Hcall _ IH];
    intros validation; [reflexivity|].
  cbn [forEach fold_left].
  rewrite (bind_normal _ _ _ _ _ (on_rule_returned f _ _ validation _ _ _ Hcall)).
  apply IH.
Qed.

Lemma forEach_rules_failed f nv before rule after validation w res w1 e w2 :
  invoked nv before w res w1 ->
  fails_with rule nv w1 e w2 ->
  forEach (before ++ rule :: after) (on_rule f nv) validation w
  = (Throw e, w2).
Proof.
  intros Hinv Hfails. revert validation.
  induction Hinv as [w|r declared result res w w1 w3 Hcall _ IH];
    intros validation.
  - cbn [app forEach]. apply bind_throw. apply on_rule_fails. exact Hfails.
  - cbn [app forEach].
    rewrite (bind_normal _ _ _ _ _ (on_rule_returned f _ _ validation _ _ _ Hcall)).
    apply IH. exact Hfails.
Qed.

Lemma forEach_rules_thrown f nv before rule after validation w res w1 e w2 :
  invoked nv before w res w1 ->
  rule nv w1 = (Throw e, w2) ->
  forEach (before ++ rule :: after) (on_rule f nv) validation w
  = (Throw e, w2).
Proof.
  intros Hinv Hthrow. eapply forEach_rules_failed; [exact Hinv|].
  left. exact Hthrow.
Qed.

Lemma on_field_checked data rules f validation w nv declared res w1 :
  normalizeValue host (OrdinaryGet data f) = Normal nv ->
  get rules f = Some declared ->
  invoked nv declared w res w1 ->
  on_field host data rules f validation w
  = (Normal (fold_left (record_result f) res validation), w1).
Proof.
  intros Hnv Hget Hinv. unfold on_field. rewrite Hnv, Hget.
  unfold lift at 1 2. cbn [mbind M_bind].
  apply forEach_rules_invoked. exact Hinv.
Qed.

Lemma on_field_unnormalized data rules f validation w e :
  normalizeValue host (OrdinaryGet data f) = Throw e ->
  on_field host data rules f validation w = (Throw e, w).
Proof. intros Hnv. unfold on_field. rewrite Hnv. reflexivity. Qed.

(** The fields: a normal return of the [for-in] loop means every field
    was checked. *)
Lemma forEach_fields_returned data rules fields validation w v w' :
  forEach fields (on_field host data rules) validation w = (Normal v, w') ->
  exists log,
    checked host data rules fields w log w'
    /\ v = fold_left record_check log validation.
Proof.
  revert validation w.
  induction fields as [|f fields IH]; intros validation w.
  - intros [= <- <-]. exists []. split; [constructor | reflexivity].
  - cbn [forEach]. intros Hrun.
    apply bind_returned in Hrun as (v1 & w1 & Hfield & Hrest).
    unfold on_field in Hfield.
    apply bind_returned in Hfield as (nv & w0 & Hnv & Hfield).
    apply lift_returned in Hnv as [Hnv ->].
    apply bind_returned in Hfield as (declared & w0 & Hget & Hrules).
    apply lift_returned in Hget as [Hget ->].
    destruct (get rules f) as [declared'|] eqn:Hlookup; [|discriminate].
    injection Hget as ->.
    apply forEach_rules_returned in Hrules as (res & Hinv & ->).
    destruct (IH _ _ Hrest) as (log & Hlog & ->).
    exists ({| field := f; normalized := nv; results := res |} :: log).
    split; [|reflexivity]. econstructor; eassumption.
Qed.

Lemma forEach_fields_checked data rules fields validation w log w' :
  checked host data rules fields w log w' ->
  forEach fields (on_field host data rules) validation w
  = (Normal (fold_left record_check log validation), w').
Proof.
  intros Hlog. revert validation.
  induction Hlog as [w|f fields nv declared res log w w1 w2 Hnv Hget Hinv _ IH];
    intros validation; [reflexivity|].
  cbn [forEach fold_left].
  rewrite (bind_normal _ _ _ _ _
             (on_field_checked _ _ _ validation _ _ _ _ _ Hnv Hget Hinv)).
  apply IH.
Qed.

(** The loop ends with the exception of the first field that ends with
    one. *)
Lemma forEach_fields_stopped data rules done f todo validation w log w1 e w2 :
  checked host data rules done w log w1 ->
  (forall validation',
     on_field host data rules f validation' w1 = (Throw e, w2)) ->
  forEach (done ++ f :: todo) (on_field host data rules) validation w
  = (Throw e, w2).
Proof.
  intros Hlog Hthrow. revert validation.
  induction Hlog as [w|g fields nv' declared res' log w w0 w1 Hnv' Hget' Hinv' _ IH];
    intros validation.
  - cbn [app forEach]. apply bind_throw. apply Hthrow.
  - cbn [app forEach].
    rewrite (bind_normal _ _ _ _ _
               (on_field_checked _ _ _ validation _ _ _ _ _ Hnv' Hget' Hinv')).
    apply IH; assumption.
Qed.

Lemma forEach_fields_failed data rules done f todo validation w log w1
    nv before rule after res w2 e w3 :
  checked host data rules done w log w1 ->
  normalizeValue host (OrdinaryGet data f) = Normal nv ->
  get rules f = Some (before ++ rule :: after) ->
  invoked nv before w1 res w2 ->
  fails_with rule nv w2 e w3 ->
  forEach (done ++ f :: todo) (on_field host data rules) validation w
  = (Throw e, w3).
Proof.
  intros Hlog Hnv Hget Hinv Hfails.
  apply (forEach_fields_stopped _ _ _ _ _ _ _ _ _ _ _ Hlog).
  intros validation'. unfold on_field.
  rewrite Hnv, Hget. unfold lift at 1 2. cbn [mbind M_bind].
  eapply forEach_rules_failed; eassumption.
Qed.

Lemma forEach_fields_thrown data rules done f todo validation w log w1
    nv before rule after res w2 e w3 :
  checked host data rules done w log w1 ->
  normalizeValue host (OrdinaryGet data f) = Normal nv ->
  get rules f = Some (before ++ rule :: after) ->
  invoked nv before w1 res w2 ->
  rule nv w2 = (Throw e, w3) ->
  forEach (done ++ f :: todo) (on_field host data rules) validation w
  = (Throw e, w3).
Proof.
  intros Hlog Hnv Hget Hinv Hthrow.
  eapply forEach_fields_failed; try eassumption. left. exact Hthrow.
Qed.

Lemma checked_fields data rules fields w log w' :
  checked host data rules fields w log w' -> List.map field log = fields.
Proof.
  induction 1 as [|f fields nv declared res log w w1 w2 _ _ _ _ IH];
    [reflexivity|]. cbn [List.map field]. rewrite IH. reflexivity.
Qed.


Lemma get_keys {V} (o : list (jsstring * V)) (key : jsstring) :
  In key (keys o) -> exists v, get o key = Some v.
Proof.
  induction o as [|[k v] o IH]; [intros []|].
  cbn [keys List.map fst get]. case_bool_decide as Hk; [eauto|].
  intros [Hin | Hin]; [contradiction | exact (IH Hin)].
Qed.

Lemma invoked_total nv declared w :
  Forall never_throws declared ->
  exists res w', invoked nv declared w res w'.
Proof.
  intros Hall. revert w.
  induction Hall as [|rule declared Hrule _ IH]; intros w.
  - exists [], w. constructor.
  - destruct (Hrule nv w) as (result & w1 & Hcall).
    destruct (IH w1) as (res & w2 & Hinv).
    exists (result :: res), w2. econstructor; eassumption.
Qed.

(** The rules of one field: [forEach] throws what a rule threw, or a
    TypeError at the rule that returned no object. *)
Lemma forEach_rules_throws f nv declared validation w e w' :
  forEach declared (on_rule f nv) validation w = (Throw e, w') ->
  exists before rule after res w1,
    declared = before ++ rule :: after
    /\ invoked nv before w res w1
    /\ fails_with rule nv w1 e w'.
Proof.
  revert validation w.
  induction declared as [|rule declared IH]; intros validation w;
    [discriminate|].
  cbn [forEach]. destruct (rule nv w) as [[[result|]|e0] w0] eqn:Hcall.
  - rewrite (bind_normal _ _ _ _ _
               (on_rule_returned f _ _ validation _ _ _ Hcall)).
    intros Hrest.
    destruct (IH _ _ Hrest) as (before & r & after & res & w1 & -> & Hinv & Hr).
    exists (rule :: before), r, after, (result :: res), w1.
    split; [reflexivity|]. split; [econstructor; eassumption | exact Hr].
  - rewrite (bind_throw _ _ _ _ _ (on_rule_nullish f _ _ validation _ _ Hcall)).
    intros [= <- <-].
    exists [], rule, declared, [], w. split; [reflexivity|].
    split; [constructor | right; auto].
  - rewrite (bind_throw _ _ _ _ _ (on_rule_thrown f _ _ validation _ _ _ Hcall)).
    intros [= <- <-].
    exists [], rule, declared, [], w. split; [reflexivity|].
    split; [constructor | left; exact Hcall].
Qed.

(** The fields: the [for-in] loop throws what the normalization of a
    field value threw, or what one of its rules failed with. *)
Lemma forEach_fields_throws data rules fields validation w e w' :
  (forall f, In f fields -> In f (keys rules)) ->
  forEach fields (on_field host data rules) validation w = (Throw e, w') ->
  exists done f todo log w1,
    fields = done ++ f :: todo
    /\ checked host data rules done w log w1
    /\ ((normalizeValue host (OrdinaryGet data f) = Throw e /\ w' = w1)
        \/ exists nv before rule after res w2,
             normalizeValue host (OrdinaryGet data f) = Normal nv
             /\ get rules f = Some (before ++ rule :: after)
             /\ invoked nv before w1 res w2
             /\ fails_with rule nv w2 e w').
Proof.
  revert validation w.
  induction fields as [|f fields IH]; intros validation w Hkeys;
    [discriminate|].
  destruct (get_keys rules f (Hkeys f (or_introl eq_refl))) as [declared Hget].
  cbn [forEach].
  destruct (normalizeValue host (OrdinaryGet data f)) as [nv|e0] eqn:Hnv.
  2: { rewrite (bind_throw _ _ _ _ _
                  (on_field_unnormalized _ _ _ validation w _ Hnv)).
       intros [= <- <-].
       exists [], f, fields, [], w. split; [reflexivity|].
       split; [constructor | left; auto]. }
  destruct (forEach declared (on_rule f nv) validation w) as [[v1|e1] w1]
    eqn:Hrules.
  - apply forEach_rules_returned in Hrules as (res & Hinv & ->).
    rewrite (bind_normal _ _ _ _ _
               (on_field_checked _ _ _ validation _ _ _ _ _ Hnv Hget Hinv)).
    intros Hrest.
    destruct (IH _ _ (fun g Hg => Hkeys g (or_intror Hg)) Hrest)
      as (done & g & todo & log & w2 & -> & Hlog & Hcause).
    exists (f :: done), g, todo,
      ({| field := f; normalized := nv; results := res |} :: log), w2.
    split; [reflexivity|].
    split; [econstructor; eassumption | exact Hcause].
  - assert (Hfield : on_field host data rules f validation w = (Throw e1, w1)).
    { unfold on_field. rewrite Hnv, Hget. unfold lift at 1 2.
      cbn [mbind M_bind]. exact Hrules. }
    rewrite (bind_throw _ _ _ _ _ Hfield). intros [= <- <-].
    apply forEach_rules_throws in Hrules
      as (before & rule & after & res & w2 & -> & Hinv & Hfails).
    exists [], f, fields, [], w. split; [reflexivity|].
    split; [constructor|]. right.
    exists nv, before, rule, after, res, w2. auto.
Qed.


(** When no declared rule throws or returns no object, and no declared
    field reads a Proxy, [validate] returns. *)
Lemma validate_returns data rules w :
  (forall f declared, get rules f = Some declared ->
                      Forall never_throws declared) ->
  provides_File host ->
  no_Proxy (keys rules) data ->
  exists v w', validate host data (Some rules) w = (Normal v, w').
Proof.
  intros Hrules Hhost Hdata. rewrite validate_unfold.
  assert (Hkeys : forall f, In f (keys rules) -> In f (keys rules)) by auto.
  revert Hkeys w. generalize {| errors := ∅; valid := true |}.
  generalize (keys rules) at 1 3.
  induction l as [|f fields IH]; intros validation Hkeys w.
  - exists validation, w. reflexivity.
  - destruct (get_keys rules f (Hkeys f (or_introl eq_refl)))
      as [declared Hget].
    destruct (normalizeValue_returns host (OrdinaryGet data f) Hhost)
      as [nv Hnv]; [apply Hdata, Hkeys; left; reflexivity|].
    destruct (invoked_total nv declared w (Hrules _ _ Hget))
      as (res & w1 & Hinv).
    cbn [forEach].
    rewrite (bind_normal _ _ _ _ _
               (on_field_checked _ _ _ validation _ _ _ _ _ Hnv Hget Hinv)).
    apply IH. intros g Hg. apply Hkeys. right. exact Hg.
Qed.

End Runs.

Section Validator.

Context {W : Type}.
Variable host : hostType.

Implicit Types (rules : rulesType (W := W)) (data : dataType) (w : W).




(** C8. When a rule evaluator throws, [validate] throws the same
    exception at once: the rules and fields after it are not gone
    through, the exception is not caught, and no validation object is
    returned. *)
Theorem validate_propagates_exception
    data rules done f todo log w w1 nv before rule after res w2 e w3 :
  keys rules = done ++ f :: todo ->
  checked host data rules done w log w1 ->
  normalizeValue host (OrdinaryGet data f) = Normal nv ->
  get rules f = Some (before ++ rule :: after) ->
  invoked nv before w1 res w2 ->
  rule nv w2 = (Throw e, w3) ->
  validate host data (Some rules) w = (Throw e, w3).
Proof.
  intros Hkeys Hlog Hnv Hget Hinv Hthrow.
  rewrite validate_unfold, Hkeys.
  eapply forEach_fields_thrown; eassumption.
Qed.

(** C10. With an empty rule-set, or with the [rules] argument left out
    and so defaulting to the empty object, [validate] returns
    [{ valid: true, errors: {} }] whatever [data] holds. *)
Theorem validate_without_rules data w :
  validate host data None w
  = (Normal {| errors := ∅; valid := true |}, w)
  /\ validate host data (Some []) w
     = (Normal {| errors := ∅; valid := true |}, w).
Proof. split; reflexivity. Qed.

End Validator.

Section Registry.

Context {W : Type}.

Implicit Types (registry : gmap jsstring (factoryType (W := W))).

Lemma buildRules_unregistered registry uses u :
  In u uses ->
  registry !! rule_name u = None ->
  exists name,
    registry !! name = None
    /\ buildRules registry uses = Throw (RuleNotFound name).
Proof.
  intros Hin Hnone.
  induction uses as [|u0 uses IH]; [destruct Hin|].
  cbn [buildRules]. unfold buildRule, registry_get.
  destruct (registry !! rule_name u0) as [factory|] eqn:Hu0.
  - destruct Hin as [-> | Hin]; [congruence|].
    destruct (IH Hin) as (name & Hname & ->).
    exists name. split; [exact Hname | reflexivity].
  - exists (rule_name u0). split; [exact Hu0 | reflexivity].
Qed.

Lemma buildRules_thrown registry uses e :
  buildRules registry uses = Throw e ->
  exists name, registry !! name = None /\ e = RuleNotFound name.
Proof.
  induction uses as [|u0 uses IH]; [discriminate|].
  cbn [buildRules]. unfold buildRule, registry_get.
  destruct (registry !! rule_name u0) as [factory|] eqn:Hu0.
  - cbn. destruct (buildRules registry uses) as [built|e']; [discriminate|].
    intros [= <-]. apply IH. reflexivity.
  - intros [= <-]. eauto.
Qed.

Lemma buildRuleSet_unregistered registry declared f uses u :
  In (f, uses) declared ->
  In u uses ->
  registry !! rule_name u = None ->
  exists name,
    registry !! name = None
    /\ buildRuleSet registry declared = Throw (RuleNotFound name).
Proof.
  intros Hin Hu Hnone.
  induction declared as [|[g uses0] declared IH]; [destruct Hin|].
  cbn [buildRuleSet].
  destruct (buildRules registry uses0) as [built|e] eqn:Hbuilt.
  - destruct Hin as [[= -> ->] | Hin].
    + destruct (buildRules_unregistered registry uses u Hu Hnone)
        as (name & _ & Hthrow). congruence.
    + destruct (IH Hin) as (name & Hname & ->).
      exists name. split; [exact Hname | reflexivity].
  - destruct Hin as [[= -> ->] | Hin].
    + destruct (buildRules_unregistered registry uses u Hu Hnone)
        as (name & Hname & Hthrow).
      exists name. split; [exact Hname|]. cbn. congruence.
    + destruct (buildRules_thrown registry uses0 e Hbuilt)
        as (name & Hname & ->).
      exists name. split; [exact Hname | reflexivity].
Qed.

(** C9. A rule-set that uses a name the registry does not hold raises
    [RuleNotFound] when that rule is built, which is before [validate]
    is entered: the error is not skipped over, no rule evaluator has run
    and no field has been reported on. *)
Theorem unregistered_rule_raises host registry data declared (w : W)
    f uses u :
  In (f, uses) declared ->
  In u uses ->
  registry !! rule_name u = None ->
  exists name,
    registry !! name = None
    /\ validateDeclared host registry data declared w
       = (Throw (RuleNotFound name), w).
Proof.
  intros Hin Hu Hnone.
  destruct (buildRuleSet_unregistered registry declared f uses u Hin Hu Hnone)
    as (name & Hname & Hthrow).
  exists name. split; [exact Hname|].
  unfold validateDeclared. apply bind_throw. unfold lift.
  rewrite Hthrow. reflexivity.
Qed.

End Registry.

(** * Sample runs *)





Lemma validate_propagates_exception_witness :
  validate node sample_data (Some throwing_rules) []
  = (Throw (UserThrown (VString (js "boom"))), [js "too short"; js "boom"]).
Proof.
  apply (validate_propagates_exception node sample_data throwing_rules
           [] (js "name") [js "email"] [] [] []
           {| type := "string"; value := VString (js "Ada") |}
           [fixed_rule false "too short"] (throwing_rule "boom")
           [fixed_rule false "never called"]
           [{| pass := false; message := js "too short" |}]
           [js "too short"]).
  - reflexivity.
  - constructor.
  - vm_compute. reflexivity.
  - vm_compute. reflexivity.
  - econstructor; [reflexivity | constructor].
  - reflexivity.
Defined.

Lemma unregistered_rule_raises_witness :
  exists name,
    sample_registry !! name = None
    /\ validateDeclared node sample_registry sample_data sample_declared []
       = (Throw (RuleNotFound name), []).
Proof.
  apply (unregistered_rule_raises node sample_registry sample_data
           sample_declared [] (js "email")
           [ {| rule_name := js "required"; rule_config := None;
                rule_message := Some (js "Email is required") |};
             {| rule_name := js "barcode"; rule_config := None;
                rule_message := None |} ]
           {| rule_name := js "barcode"; rule_config := None;
              rule_message := None |}).
  - left. reflexivity.
  - right. left. reflexivity.
  - vm_compute. reflexivity.
Defined.

(** * Further properties of the normalizer *)

Section TrimmingMore.

Lemma dropWhile_all {A} (p : A -> bool) (l : list A) :
  Forall (fun x => p x = true) l -> dropWhile p l = [].
Proof. induction 1 as [|x l Hx _ IH]; cbn; [|rewrite Hx]; auto. Qed.

Lemma dropWhile_app_all {A} (p : A -> bool) (l s : list A) :
  Forall (fun x => p x = true) l -> dropWhile p (l ++ s) = dropWhile p s.
Proof. induction 1 as [|x l Hx _ IH]; cbn; [|rewrite Hx]; auto. Qed.

Lemma dropWhile_app_kept {A} (p : A -> bool) (s r : list A) :
  dropWhile p s <> [] -> dropWhile p (s ++ r) = dropWhile p s ++ r.
Proof.
  induction s as [|x s IH]; cbn; [contradiction|].
  destruct (p x); auto.
Qed.

Lemma trimEnd_app_all s r :
  all_white_space r -> trimEnd (s ++ r) = trimEnd s.
Proof.
  intros Hr. unfold trimEnd. rewrite rev_app_distr.
  rewrite dropWhile_app_all by (apply List.Forall_rev; exact Hr).
  reflexivity.
Qed.

Lemma trim_blank s : all_white_space s -> trim s = [].
Proof.
  intros Hs. unfold trim, trimStart. rewrite (dropWhile_all _ _ Hs).
  reflexivity.
Qed.

(** White space around a string does not reach its trimmed form. *)
Lemma trim_surrounded l s r :
  all_white_space l -> all_white_space r -> trim (l ++ s ++ r) = trim s.
Proof.
  intros Hl Hr. unfold trim, trimStart.
  rewrite (dropWhile_app_all _ l _ Hl).
  destruct (dropWhile is_white_space s) as [|c t] eqn:Hs.
  - destruct (dropWhile_split is_white_space s) as (d & Hd & Hall).
    rewrite Hs, app_nil_r in Hd. subst d.
    rewrite dropWhile_all; [reflexivity|].
    apply Forall_app. split; assumption.
  - rewrite dropWhile_app_kept by (rewrite Hs; discriminate).
    rewrite Hs. apply trimEnd_app_all. exact Hr.
Qed.

End TrimmingMore.

Section NormalizerMore.

Variable host : hostType.

(** X1. When [normalizeValue] returns, the tag is one of "string",
    "number", "boolean", "bigint", "symbol", "function", "object", "array",
    "file", "nullish" and "undefined", and it is "undefined" for an object
    with the [[IsHTMLDDA]] slot only, never for [undefined] itself. *)
Theorem normalizeValue_tag_known v nv :
  normalizeValue host v = Normal nv ->
  In (type nv) known_tags
  /\ (type nv = "undefined"%string <-> exists id, v = VHTMLDDA id).
Proof.
  intros Hnv.
  destruct (normalizeValue_returned host v nv Hnv)
    as [(s & -> & ->) | [(x & -> & ->) | [(Habsent & ->) | Hother]]].
  - split; [cbn; tauto|]. split; [discriminate | intros [id [=]]].
  - split; [cbn; tauto|]. split; [discriminate | intros [id [=]]].
  - split; [cbn; tauto|]. split; [discriminate|].
    intros [id ->]. destruct Habsent as [[=] | [=]].
  - destruct Hother
      as (_ & _ & Hpresent & isArray & isFile & Harray & Hfile & ->).
    cbn [type]. destruct isFile.
    { split; [cbn; tauto|]. split; [discriminate|].
      intros [id ->]. unfold is_File in Hfile.
      destruct (module_exports host), (File host); discriminate Hfile. }
    destruct isArray.
    { split; [cbn; tauto|]. split; [discriminate|].
      intros [id ->]. discriminate Harray. }
    split.
    + pose proof (typeof_known v) as Hknown. cbn in Hknown |- *. tauto.
    + rewrite typeof_undefined. split.
      * intros [-> | Hdda]; [|exact Hdda]. exfalso. apply Hpresent. auto.
      * auto.
Qed.

(** X2. When [normalizeValue] returns, the tag is "nullish" exactly when
    the input is [undefined] or [null]: [false], [0], NaN, the empty
    string and the empty array are not nullish. *)
Theorem normalizeValue_nullish_iff v nv :
  normalizeValue host v = Normal nv ->
  type nv = "nullish"%string <-> absent v.
Proof.
  unfold absent. intros Hnv.
  destruct (normalizeValue_returned host v nv Hnv)
    as [(s & -> & ->) | [(x & -> & ->) | [(Habsent & ->) | Hother]]].
  - split; [discriminate | intros [[=] | [=]]].
  - split; [discriminate | intros [[=] | [=]]].
  - split; [auto | reflexivity].
  - destruct Hother as (_ & _ & Hpresent & isArray & isFile & _ & _ & ->).
    split; [|contradiction]. cbn [type]. intros Htag. exfalso.
    destruct isFile; [discriminate Htag|].
    destruct isArray; [discriminate Htag|].
    pose proof (typeof_known v) as Hknown. rewrite Htag in Hknown.
    cbn in Hknown. intuition discriminate.
Qed.

(** X3. When [normalizeValue] returns, the tag tells what the input was:
    "string" and "number" for a string and a number and for nothing else,
    "file" exactly for what is an instance of File when the module runs in
    browser mode, and "array" exactly for what [Array.isArray] accepts and
    is not tagged "file". *)
Theorem normalizeValue_classifies v nv :
  normalizeValue host v = Normal nv ->
  (type nv = "string"%string <-> exists s, v = VString s)
  /\ (type nv = "number"%string <-> exists x, v = VNumber x)
  /\ (type nv = "file"%string <->
      instanceof_File v = Normal true /\ module_exports host = false)
  /\ (type nv = "array"%string <->
      Array_isArray v = Normal true
      /\ ~ (instanceof_File v = Normal true /\ module_exports host = false)).
Proof.
  intros Hnv.
  destruct (normalizeValue_returned host v nv Hnv)
    as [(s & -> & ->) | [(x & -> & ->) | [(Habsent & ->) | Hother]]].
  - cbn [type]. split; [split; [eauto | reflexivity]|].
    split; [split; [discriminate | intros [? [=]]]|].
    split; (split; [discriminate | intros [[=] _]]).
  - cbn [type]. split; [split; [discriminate | intros [? [=]]]|].
    split; [split; [eauto | reflexivity]|].
    split; (split; [discriminate | intros [[=] _]]).
  - cbn [type]. destruct Habsent as [-> | ->].
    all: split; [split; [discriminate | intros [? [=]]]|].
    all: split; [split; [discriminate | intros [? [=]]]|].
    all: split; (split; [discriminate | intros [[=] _]]).
  - destruct Hother as (Hs & Hn & _ & isArray & isFile & Harray & Hfile & ->).
    cbn [type].
    assert (Hfile' : isFile = true
                     <-> instanceof_File v = Normal true
                         /\ module_exports host = false).
    { unfold is_File in Hfile. destruct (module_exports host).
      - injection Hfile as <-. split; [discriminate | intros [_ [=]]].
      - destruct (File host); [|discriminate Hfile].
        rewrite Hfile. split; [intros ->; auto | intros [[= ->] _]; auto]. }
    pose proof (typeof_known v) as Hknown.
    split; [|split; [|split]].
    + split; [|intros [s ->]; exfalso; apply Hs; reflexivity].
      intros Htag. exfalso. destruct isFile; [discriminate Htag|].
      destruct isArray; [discriminate Htag | contradiction].
    + split; [|intros [x ->]; exfalso; apply Hn; reflexivity].
      intros Htag. exfalso. destruct isFile; [discriminate Htag|].
      destruct isArray; [discriminate Htag | contradiction].
    + rewrite <- Hfile'. destruct isFile; [tauto|].
      split; [|discriminate]. intros Htag. exfalso.
      destruct isArray; [discriminate Htag|].
      rewrite Htag in Hknown. cbn in Hknown. intuition discriminate.
    + rewrite <- Hfile', Harray. destruct isFile.
      { split; [discriminate | intros [_ Hno]; exfalso; auto]. }
      destruct isArray.
      { split; [split; [reflexivity | discriminate] | reflexivity]. }
      split; [|intros [[=] _]]. intros Htag. exfalso.
      rewrite Htag in Hknown. cbn in Hknown. intuition discriminate.
Qed.

(** X4. A value that is not a string, a number, [undefined] or [null]
    comes out as it went in, the same object and not a copy. *)
Theorem normalizeValue_keeps_value v nv :
  normalizeValue host v = Normal nv ->
  typeof v <> "string"%string ->
  typeof v <> "number"%string ->
  ~ absent v ->
  value nv = v.
Proof.
  unfold absent. intros Hnv Hs Hn Ha.
  destruct (normalizeValue_returned host v nv Hnv)
    as [(s & -> & _) | [(x & -> & _) | [(Habsent & _) | Hother]]].
  - exfalso. apply Hs. reflexivity.
  - exfalso. apply Hn. reflexivity.
  - contradiction.
  - destruct Hother as (_ & _ & _ & isArray & isFile & _ & _ & ->).
    reflexivity.
Qed.


(** X7. A Number is normalized to itself, [-0] to [+0]: going through its
    string form loses nothing else. *)
Theorem normalizeValue_number_value x :
  is_Number x ->
  normalizeValue host (VNumber x)
  = Normal {| type := "number"; value := VNumber (without_negative_zero x) |}.
Proof.
  intros Hx. destruct x as [sg|sg| |sg m e]; cbn [without_negative_zero].
  - destruct sg; vm_compute; reflexivity.
  - apply normalizeValue_number_unchanged; [exact Hx | discriminate].
  - apply normalizeValue_number_unchanged; [exact Hx | discriminate].
  - apply normalizeValue_number_unchanged; [exact Hx | discriminate].
Qed.

(** X8. A string is normalized to the empty string exactly when it
    consists of white space only (the empty string included). *)
Theorem normalizeValue_blank_string s :
  normalizeValue host (VString s)
  = Normal {| type := "string"; value := VString [] |}
  <-> all_white_space s.
Proof.
  rewrite normalizeValue_VString. split.
  - intros [= Htrim]. destruct (trim_split s) as (l & r & Hs & Hl & Hr).
    rewrite Htrim in Hs. rewrite Hs. apply Forall_app. split; assumption.
  - intros Hs. rewrite (trim_blank s Hs). reflexivity.
Qed.

(** X9. White space before and after a string makes no difference to what
    it is normalized to. *)
Theorem normalizeValue_ignores_surrounding_space l s r :
  all_white_space l ->
  all_white_space r ->
  normalizeValue host (VString (l ++ s ++ r)) = normalizeValue host (VString s).
Proof.
  intros Hl Hr. rewrite !normalizeValue_VString, (trim_surrounded l s r Hl Hr).
  reflexivity.
Qed.

End NormalizerMore.

(** The host is consulted for the one test of the [default] branch. *)
Lemma normalizeValue_same_test host1 host2 v :
  is_File host1 v = is_File host2 v ->
  normalizeValue host1 v = normalizeValue host2 v.
Proof.
  intros Hsame.
  destruct (typeof_kind v) as [[s ->] | [[x ->] | [Hs Hn]]].
  - rewrite !normalizeValue_VString. reflexivity.
  - rewrite !normalizeValue_VNumber. reflexivity.
  - rewrite !(normalizeValue_default _ v Hs Hn), Hsame. reflexivity.
Qed.

(** X5. Between hosts that define [File] when the module takes them for a
    browser, the host matters only where [instanceof File] does not
    answer false: a value on which it does, which is every value that is
    neither a File nor a Proxy, is normalized alike in node mode and in
    browser mode, be it to a result or to an exception. *)
Theorem normalizeValue_same_on_hosts host1 host2 v :
  provides_File host1 ->
  provides_File host2 ->
  instanceof_File v = Normal false ->
  normalizeValue host1 v = normalizeValue host2 v.
Proof.
  unfold provides_File. intros H1 H2 Hv.
  apply normalizeValue_same_test. unfold is_File.
  destruct (module_exports host1), (module_exports host2);
    try rewrite (H1 eq_refl); try rewrite (H2 eq_refl);
    rewrite ?Hv; reflexivity.
Qed.

(** * Further properties of the validator *)

Section RecordingMore.

Lemma failures_nil results :
  failures results = [] <-> forallb pass results = true.
Proof.
  unfold failures. induction results as [|r results IH]; [tauto|].
  cbn [List.filter forallb]. destruct (pass r); cbn [negb andb List.map].
  - exact IH.
  - split; discriminate.
Qed.

Lemma failures_of_nil log :
  (forall g, failures_of g log = [])
  <-> forallb (fun c => forallb pass (results c)) log = true.
Proof.
  unfold failures_of. induction log as [|c log IH]; [tauto|].
  cbn [flat_map forallb]. rewrite andb_true_iff, <- IH, <- failures_nil.
  split.
  - intros Hall. split.
    + specialize (Hall (field c)).
      rewrite bool_decide_eq_true_2 in Hall by reflexivity.
      apply app_eq_nil in Hall. tauto.
    + intros g. specialize (Hall g). apply app_eq_nil in Hall. tauto.
  - intros [Hc Hlog] g. rewrite Hc, (Hlog g).
    destruct (bool_decide _); reflexivity.
Qed.

(** [valid] stays true exactly when no failure is recorded. *)
Lemma valid_iff_no_failure log validation :
  valid (fold_left record_check log validation) = true
  <-> valid validation = true /\ forall g, failures_of g log = [].
Proof. rewrite valid_record_checks, andb_true_iff, failures_of_nil. tauto. Qed.

(** A failure is recorded for one of the fields gone through. *)
Lemma failure_recorded log :
  forallb (fun c => forallb pass (results c)) log = false ->
  exists c m, In c log /\ last (failures_of (field c) log) = Some m.
Proof.
  induction log as [|c log IH]; [discriminate|].
  cbn [forallb]. rewrite andb_false_iff.
  destruct (forallb (fun c => forallb pass (results c)) log) eqn:Hlog.
  - intros [Hc | [=]].
    assert (Hnone : failures_of (field c) log = []).
    { apply failures_of_nil. exact Hlog. }
    destruct (failures (results c)) as [|m res] eqn:Hres.
    { apply failures_nil in Hres. congruence. }
    destruct (last (m :: res)) as [m'|] eqn:Hlast.
    2: { apply last_None in Hlast. discriminate Hlast. }
    exists c, m'. split; [left; reflexivity|].
    unfold failures_of. cbn [flat_map].
    rewrite bool_decide_eq_true_2 by reflexivity.
    fold (failures_of (field c) log). rewrite Hnone, app_nil_r, Hres.
    exact Hlast.
  - intros _. destruct (IH eq_refl) as (c' & m & Hin & Hlast).
    exists c', m. split; [right; exact Hin|].
    unfold failures_of. cbn [flat_map]. rewrite last_app.
    fold (failures_of (field c') log). rewrite Hlast. reflexivity.
Qed.

Lemma record_checks_merge log validation :
  fold_left record_check log validation
  = merge validation
      (fold_left record_check log {| errors := ∅; valid := true |}).
Proof.
  assert (Heq : forall a b : validationType,
             errors a = errors b -> valid a = valid b -> a = b).
  { intros [ea va] [eb vb]. cbn. intros -> ->. reflexivity. }
  apply Heq.
  - apply map_eq. intros g. cbn [merge errors].
    rewrite lookup_union, !errors_record_checks. cbn [errors].
    rewrite lookup_empty. destruct (bool_decide _).
    + destruct (errors validation !! g); reflexivity.
    + destruct (last (failures_of g log)) as [m|];
        destruct (errors validation !! g); reflexivity.
  - cbn [merge valid]. rewrite !valid_record_checks. reflexivity.
Qed.

End RecordingMore.

Section RunsMore.

Context {W : Type}.
Variable host : hostType.

Implicit Types (rules : rulesType (W := W)) (data : dataType) (w : W).

Lemma forEach_ext {A B} (l : list A) (f g : A -> B -> M (W := W) B) acc w :
  (forall x, In x l -> forall acc w, f x acc w = g x acc w) ->
  forEach l f acc w = forEach l g acc w.
Proof.
  revert acc w. induction l as [|x l IH]; intros acc w Hfg; [reflexivity|].
  cbn [forEach]. unfold mbind, M_bind.
  rewrite (Hfg x (or_introl eq_refl)).
  destruct (g x acc w) as [[acc'|e] w1]; [|reflexivity].
  apply IH. intros y Hy. apply Hfg. right. exact Hy.
Qed.

Lemma forEach_app {A B} (l1 l2 : list A) (f : A -> B -> M (W := W) B) acc w :
  forEach (l1 ++ l2) f acc w
  = match forEach l1 f acc w with
    | (Normal acc1, w1) => forEach l2 f acc1 w1
    | (Throw e, w1) => (Throw e, w1)
    end.
Proof.
  revert acc w. induction l1 as [|x l1 IH]; intros acc w; [reflexivity|].
  cbn [app forEach]. unfold mbind, M_bind.
  destruct (f x acc w) as [[acc'|e] w1]; [apply IH | reflexivity].
Qed.

(** The loop body reads [data] through the normalized value of the one
    field and the rule-set through the rules of the one field. *)
Lemma on_field_same data data' rules rules' f validation w :
  normalizeValue host (OrdinaryGet data f)
  = normalizeValue host (OrdinaryGet data' f) ->
  get rules f = get rules' f ->
  on_field host data rules f validation w
  = on_field host data' rules' f validation w.
Proof. intros Hnv Hget. unfold on_field. rewrite Hnv, Hget. reflexivity. Qed.

Lemma validate_same_normalized data data' rules w :
  (forall f, In f (keys rules) ->
     normalizeValue host (OrdinaryGet data f)
     = normalizeValue host (OrdinaryGet data' f)) ->
  validate host data (Some rules) w = validate host data' (Some rules) w.
Proof.
  intros Hsame. rewrite !validate_unfold. apply forEach_ext.
  intros f Hf acc w0. apply on_field_same; [apply Hsame; exact Hf | reflexivity].
Qed.

Lemma keys_app {V} (o1 o2 : list (jsstring * V)) :
  keys (o1 ++ o2) = keys o1 ++ keys o2.
Proof. apply List.map_app. Qed.

Lemma get_app_l {V} (o1 o2 : list (jsstring * V)) f :
  In f (keys o1) -> get (o1 ++ o2) f = get o1 f.
Proof.
  induction o1 as [|[k v] o1 IH]; [intros []|].
  cbn [keys List.map fst app get]. case_bool_decide as Hk; [reflexivity|].
  intros [Hin | Hin]; [contradiction | exact (IH Hin)].
Qed.

Lemma get_app_r {V} (o1 o2 : list (jsstring * V)) f :
  ~ In f (keys o1) -> get (o1 ++ o2) f = get o2 f.
Proof.
  induction o1 as [|[k v] o1 IH]; [reflexivity|].
  cbn [keys List.map fst app get]. intros Hnot.
  case_bool_decide as Hk; [exfalso; apply Hnot; left; exact Hk|].
  apply IH. intros Hin. apply Hnot. right. exact Hin.
Qed.

(** Starting the loop from an object that already holds results gives
    what starting afresh gives, merged into that object. *)
Lemma forEach_fields_from data rules fields validation w :
  (forall f, In f fields -> In f (keys rules)) ->
  forEach fields (on_field host data rules) validation w
  = match forEach fields (on_field host data rules)
            {| errors := ∅; valid := true |} w with
    | (Normal v, w') => (Normal (merge validation v), w')
    | (Throw e, w') => (Throw e, w')
    end.
Proof.
  intros Hkeys.
  destruct (forEach fields (on_field host data rules)
              {| errors := ∅; valid := true |} w) as [[v|e] w'] eqn:Hrun.
  - apply forEach_fields_returned in Hrun as (log & Hlog & ->).
    rewrite (forEach_fields_checked host _ _ _ validation _ _ _ Hlog).
    rewrite record_checks_merge. reflexivity.
  - apply forEach_fields_throws in Hrun
      as (done & f & todo & log & w1 & -> & Hlog & Hcause); [|exact Hkeys].
    destruct Hcause
      as [[Hnv ->]
         | (nv & before & rule & after & res & w2 & Hnv & Hget & Hinv & Hfails)].
    + apply (forEach_fields_stopped host _ _ _ _ _ _ _ _ _ _ _ Hlog).
      intros validation'. apply on_field_unnormalized. exact Hnv.
    + eapply forEach_fields_failed; eassumption.
Qed.

End RunsMore.

Section QuietRules.

Context {W : Type}.
Variable host : hostType.

Implicit Types (rules : rulesType (W := W)) (data : dataType) (w : W).

Lemma get_In {V} (o : list (jsstring * V)) f v :
  get o f = Some v -> In (f, v) o.
Proof.
  induction o as [|[k x] o IH]; [discriminate|].
  cbn [get]. case_bool_decide as Hk.
  - intros [= ->]. left. congruence.
  - intros Hget. right. exact (IH Hget).
Qed.

Lemma In_get {V} (o : list (jsstring * V)) f v :
  NoDup (keys o) -> In (f, v) o -> get o f = Some v.
Proof.
  induction o as [|[k x] o IH]; [intros _ []|].
  cbn [keys List.map fst get]. intros Hnodup Hin.
  apply NoDup_cons in Hnodup as [Hk Hnodup].
  destruct Hin as [[= -> ->] | Hin].
  - rewrite bool_decide_eq_true_2; reflexivity.
  - case_bool_decide as Hkf; [|exact (IH Hnodup Hin)].
    subst k. exfalso. apply Hk. apply list_elem_of_In.
    change f with (fst (f, v)). apply in_map. exact Hin.
Qed.

Lemma get_None {V} (o : list (jsstring * V)) f :
  ~ In f (keys o) -> get o f = None.
Proof.
  induction o as [|[k x] o IH]; [reflexivity|].
  cbn [keys List.map fst get]. intros Hnot.
  case_bool_decide as Hk; [exfalso; apply Hnot; left; exact Hk|].
  apply IH. intros Hin. apply Hnot. right. exact Hin.
Qed.

(** The property lookup does not depend on the order of the properties. *)
Lemma get_permutation {V} (o o' : list (jsstring * V)) f :
  Permutation o o' -> NoDup (keys o) -> get o f = get o' f.
Proof.
  intros Hperm Hnodup.
  assert (Hnodup' : NoDup (keys o')).
  { unfold keys. rewrite <- Hperm. exact Hnodup. }
  destruct (get o f) as [v|] eqn:Hget.
  - symmetry. apply In_get; [exact Hnodup'|].
    apply (Permutation_in _ Hperm). apply get_In. exact Hget.
  - destruct (get o' f) as [v'|] eqn:Hget'; [|reflexivity].
    apply get_In, (Permutation_in _ (Permutation_sym Hperm)) in Hget'.
    rewrite (In_get o f v' Hnodup Hget') in Hget. discriminate.
Qed.

Lemma invoked_quiet nv declared w :
  Forall quiet declared -> exists res, invoked nv declared w res w.
Proof.
  induction 1 as [|rule declared Hrule _ [res IH]].
  - exists []. constructor.
  - destruct (Hrule nv w) as [result Hcall].
    exists (result :: res). econstructor; eassumption.
Qed.

Lemma invoked_deterministic nv declared w res w1 res' w1' :
  invoked nv declared w res w1 ->
  invoked nv declared w res' w1' ->
  res = res' /\ w1 = w1'.
Proof.
  intros Hinv. revert res' w1'.
  induction Hinv as [w|rule declared result res w w0 w1 Hcall _ IH];
    intros res' w1' Hinv'; inversion Hinv'; subst; [auto|].
  match goal with
  | H : rule nv w = (Normal (Some ?r), ?w2) |- _ =>
      rewrite Hcall in H; injection H as <- <-
  end.
  match goal with
  | H : invoked nv declared w0 _ _ |- _ => destruct (IH _ _ H) as [-> ->]
  end.
  auto.
Qed.

(** With quiet rules and no Proxy to inspect, every field is checked in
    the world [validate] was called in, which is also the world it
    returns. *)
Lemma checked_quiet data rules fields w :
  all_quiet rules ->
  provides_File host ->
  no_Proxy fields data ->
  (forall f, In f fields -> In f (keys rules)) ->
  exists log, checked host data rules fields w log w.
Proof.
  intros Hquiet Hhost.
  induction fields as [|f fields IH]; intros Hdata Hkeys.
  - exists []. constructor.
  - destruct (get_keys rules f (Hkeys f (or_introl eq_refl)))
      as [declared Hget].
    destruct (normalizeValue_returns host (OrdinaryGet data f) Hhost
                (Hdata f (or_introl eq_refl))) as [nv Hnv].
    destruct (invoked_quiet nv declared w
                (Hquiet f declared (get_In _ _ _ Hget))) as [res Hinv].
    destruct (IH (fun g Hg => Hdata g (or_intror Hg))
                 (fun g Hg => Hkeys g (or_intror Hg))) as [log Hlog].
    eexists. econstructor; eassumption.
Qed.

Lemma validate_quiet_run data rules w :
  all_quiet rules ->
  provides_File host ->
  no_Proxy (keys rules) data ->
  exists log,
    checked host data rules (keys rules) w log w
    /\ validate host data (Some rules) w
       = (Normal (fold_left record_check log {| errors := ∅; valid := true |}),
          w).
Proof.
  intros Hquiet Hhost Hdata.
  destruct (checked_quiet data rules (keys rules) w Hquiet Hhost Hdata
              (fun f Hf => Hf)) as [log Hlog].
  exists log. split; [exact Hlog|].
  rewrite validate_unfold. apply forEach_fields_checked. exact Hlog.
Qed.

(** What is recorded for a field that is gone through once. *)
Lemma failures_of_checked data rules fields w log w' g :
  checked host data rules fields w log w' ->
  NoDup fields ->
  (~ In g fields -> failures_of g log = [])
  /\ (In g fields ->
      exists c, In c log /\ field c = g
                /\ failures_of g log = failures (results c)).
Proof.
  induction 1 as [|f fields nv declared res log w w1 w2 Hnv Hget Hinv Hlog IH];
    intros Hnodup.
  - split; [reflexivity | intros []].
  - apply NoDup_cons in Hnodup as [Hf Hnodup].
    rewrite list_elem_of_In in Hf.
    destruct (IH Hnodup) as [IHout IHin].
    unfold failures_of. cbn [flat_map field results].
    fold (failures_of g log). case_bool_decide as Hfg.
    + subst g. rewrite (IHout Hf), app_nil_r. split.
      * intros Hnot. exfalso. apply Hnot. left. reflexivity.
      * intros _. eexists. split; [left; reflexivity|].
        split; reflexivity.
    + cbn [app]. split.
      * intros Hnot. apply IHout. intros Hin. apply Hnot. right. exact Hin.
      * intros [Heq | Hin]; [contradiction|].
        destruct (IHin Hin) as (c & Hc & Hfield & Hfail).
        exists c. split; [right; exact Hc | auto].
Qed.

Lemma checked_quiet_world data rules fields w log w' :
  all_quiet rules ->
  checked host data rules fields w log w' ->
  w' = w.
Proof.
  intros Hquiet.
  induction 1 as [|f fields nv declared res log w w1 w2 Hnv Hget Hinv Hlog IH];
    [reflexivity|].
  destruct (invoked_quiet nv declared w
              (Hquiet f declared (get_In _ _ _ Hget))) as [res' Hinv'].
  destruct (invoked_deterministic _ _ _ _ _ _ _ Hinv Hinv') as [_ ->].
  exact IH.
Qed.

(** With quiet rules, what each field contributes depends on the field
    alone, not on where it stands in the rule-set. *)
Lemma checked_quiet_results data rules fields w log w' c :
  all_quiet rules ->
  checked host data rules fields w log w' ->
  In c log ->
  exists nv declared,
    normalizeValue host (OrdinaryGet data (field c)) = Normal nv
    /\ get rules (field c) = Some declared
    /\ invoked nv declared w (results c) w.
Proof.
  intros Hquiet.
  induction 1 as [|f fields nv declared res log w w1 w2 Hnv Hget Hinv Hlog IH].
  - intros [].
  - destruct (invoked_quiet nv declared w
                (Hquiet f declared (get_In _ _ _ Hget))) as [res' Hinv'].
    destruct (invoked_deterministic _ _ _ _ _ _ _ Hinv Hinv') as [-> ->].
    intros [<- | Hc]; [cbn [field results]; eauto | exact (IH Hc)].
Qed.

Lemma failures_of_permutation data rules rules' w log log' g :
  Permutation rules rules' ->
  NoDup (keys rules) ->
  all_quiet rules ->
  checked host data rules (keys rules) w log w ->
  checked host data rules' (keys rules') w log' w ->
  failures_of g log = failures_of g log'.
Proof.
  intros Hperm Hnodup Hquiet Hlog Hlog'.
  assert (Hnodup' : NoDup (keys rules')).
  { unfold keys. rewrite <- Hperm. exact Hnodup. }
  assert (Hquiet' : all_quiet rules').
  { intros f declared Hin. apply (Hquiet f declared).
    apply (Permutation_in _ (Permutation_sym Hperm)). exact Hin. }
  assert (Hkeys : In g (keys rules) <-> In g (keys rules')).
  { unfold keys. split; apply Permutation_in;
      [|symmetry]; apply Permutation_map; exact Hperm. }
  destruct (failures_of_checked _ _ _ _ _ _ g Hlog Hnodup) as [Hout Hin].
  destruct (failures_of_checked _ _ _ _ _ _ g Hlog' Hnodup') as [Hout' Hin'].
  destruct (decide (g ∈ keys rules)) as [Hg | Hg];
    rewrite list_elem_of_In in Hg.
  - assert (Hg' : In g (keys rules')) by (apply Hkeys; exact Hg).
    destruct (Hin Hg) as (c & Hc & Hfc & ->).
    destruct (Hin' Hg') as (c' & Hc' & Hfc' & ->).
    destruct (checked_quiet_results _ _ _ _ _ _ c Hquiet Hlog Hc)
      as (nv & declared & Hnv & Hget & Hinv).
    destruct (checked_quiet_results _ _ _ _ _ _ c' Hquiet' Hlog' Hc')
      as (nv' & declared' & Hnv' & Hget' & Hinv').
    rewrite Hfc in Hnv, Hget. rewrite Hfc' in Hnv', Hget'.
    rewrite (get_permutation rules rules' g Hperm Hnodup) in Hget.
    assert (nv' = nv) by congruence. assert (declared' = declared) by congruence.
    subst nv' declared'.
    destruct (invoked_deterministic _ _ _ _ _ _ _ Hinv Hinv') as [-> _].
    reflexivity.
  - assert (Hg' : ~ In g (keys rules')).
    { intros Hin0. apply Hg, Hkeys. exact Hin0. }
    rewrite (Hout Hg), (Hout' Hg'). reflexivity.
Qed.

End QuietRules.

Section ValidatorMore.

Context {W : Type}.
Variable host : hostType.

Implicit Types (rules : rulesType (W := W)) (data : dataType) (w : W).

(** X10. In what [validate] returns, [errors] is empty when [valid] is
    true; and when no field is named [__proto__], [valid] is true when
    [errors] is empty: a failure leaves its message under the name of its
    field, unless that name is [__proto__]. *)
Theorem validate_valid_iff_no_errors data rules w v w' :
  validate host data (Some rules) w = (Normal v, w') ->
  (valid v = true -> errors v = ∅)
  /\ (~ In (js "__proto__") (keys rules) ->
      errors v = ∅ -> valid v = true).
Proof.
  rewrite validate_unfold. intros Hrun.
  apply forEach_fields_returned in Hrun as (log & Hlog & ->).
  split.
  - intros Hvalid. apply valid_iff_no_failure in Hvalid as [_ Hnone].
    apply map_eq. intros g. rewrite errors_record_checks, lookup_empty.
    cbn [errors]. rewrite lookup_empty, (Hnone g).
    destruct (bool_decide _); reflexivity.
  - intros Hproto Hempty. rewrite valid_record_checks. cbn [valid andb].
    destruct (forallb _ log) eqn:Hpass; [reflexivity|]. exfalso.
    apply failure_recorded in Hpass as (c & m & Hc & Hlast).
    assert (Hfield : In (field c) (keys rules)).
    { rewrite <- (checked_fields _ _ _ _ _ _ _ Hlog). apply in_map. exact Hc. }
    assert (Hlookup :
              errors (fold_left record_check log
                        {| errors := ∅; valid := true |}) !! field c
              = Some m).
    { rewrite errors_record_checks, Hlast.
      rewrite bool_decide_eq_false_2; [reflexivity|].
      intros Heq. apply Hproto. rewrite <- Heq. exact Hfield. }
    rewrite Hempty, lookup_empty in Hlookup. discriminate Hlookup.
Qed.

(** X11. [validate] reads [data] under the declared field names only: two
    data objects that agree there give the same outcome, be it a result or
    an exception, and the same effects of the rules. *)
Theorem validate_reads_declared_fields_only data data' rules w :
  agree_on (keys rules) data data' ->
  validate host data (Some rules) w = validate host data' (Some rules) w.
Proof.
  intros Hagree. apply validate_same_normalized.
  intros f Hf. unfold OrdinaryGet. rewrite (Hagree f Hf). reflexivity.
Qed.

(** X12. A field set to [null] or to [undefined] is validated as a field
    that is missing, unless its name is one every object inherits a
    property under. *)
Theorem validate_missing_same_as_null data rules w f :
  ~ inherited f ->
  validate host (<[f := VNull]> data) (Some rules) w
  = validate host (delete f data) (Some rules) w
  /\ validate host (<[f := VUndefined]> data) (Some rules) w
     = validate host (delete f data) (Some rules) w.
Proof.
  intros Hf.
  assert (Hnone : get Object_prototype_properties f = None).
  { unfold inherited in Hf.
    destruct (get Object_prototype_properties f); [|reflexivity].
    exfalso. apply Hf. discriminate. }
  split; apply validate_same_normalized; intros g _; unfold OrdinaryGet;
    (destruct (decide (f = g)) as [<- | Hne];
     [ rewrite lookup_insert_eq, lookup_delete_eq, Hnone;
       cbn [default from_option id]; rewrite ?normalizeValue_VNull;
       reflexivity
     | rewrite lookup_insert_ne, lookup_delete_ne by exact Hne;
       reflexivity ]).
Qed.

(** X13. White space around a string field makes no difference to the
    validation: the rules are handed the trimmed string either way. *)
Theorem validate_ignores_surrounding_space data rules w f l s r :
  all_white_space l ->
  all_white_space r ->
  validate host (<[f := VString (l ++ s ++ r)]> data) (Some rules) w
  = validate host (<[f := VString s]> data) (Some rules) w.
Proof.
  intros Hl Hr. apply validate_same_normalized. intros g _.
  unfold OrdinaryGet. destruct (decide (f = g)) as [<- | Hne].
  - rewrite !lookup_insert_eq.
    rewrite !normalizeValue_VString, (trim_surrounded l s r Hl Hr).
    reflexivity.
  - rewrite !lookup_insert_ne by exact Hne. reflexivity.
Qed.

(** X14. Validating against two rule-sets with different field names put
    together is validating against the first and then against the second,
    with the errors of both and [valid] only when both are. *)
Theorem validate_app data rules1 rules2 w :
  (forall f, In f (keys rules1) -> ~ In f (keys rules2)) ->
  validate host data (Some (rules1 ++ rules2)) w
  = (v1 ← validate host data (Some rules1);
     v2 ← validate host data (Some rules2);
     mret (merge v1 v2)) w.
Proof.
  intros Hdisjoint.
  change (validate host data (Some (rules1 ++ rules2)) w)
    with (forEach (keys (rules1 ++ rules2))
            (on_field host data (rules1 ++ rules2))
            {| errors := ∅; valid := true |} w).
  rewrite (validate_unfold host data rules1), (validate_unfold host data rules2).
  rewrite keys_app, forEach_app.
  rewrite (forEach_ext (keys rules1) (on_field host data (rules1 ++ rules2))
             (on_field host data rules1)).
  2: { intros f Hf acc w0. apply on_field_same; [reflexivity|].
       apply get_app_l. exact Hf. }
  unfold mbind at 1, M_bind at 1.
  destruct (forEach (keys rules1) (on_field host data rules1)
              {| errors := ∅; valid := true |} w) as [[v1|e] w1];
    [|reflexivity].
  rewrite (forEach_ext (keys rules2) (on_field host data (rules1 ++ rules2))
             (on_field host data rules2)).
  2: { intros f Hf acc w0. apply on_field_same; [reflexivity|].
       apply get_app_r. intros Hin. exact (Hdisjoint f Hin Hf). }
  rewrite forEach_fields_from by auto.
  unfold mbind, M_bind, mret, M_ret.
  destruct (forEach (keys rules2) (on_field host data rules2)
              {| errors := ∅; valid := true |} w1) as [[v2|e] w2];
    reflexivity.
Qed.

(** X16. [validate] has no effect of its own: with rules that neither
    throw nor change the world, no Proxy among the values of the declared
    fields, and a host that defines [File] when the module takes it for a
    browser, it returns a result and the world it was called in. *)
Theorem validate_adds_no_effect data rules w :
  all_quiet rules ->
  provides_File host ->
  no_Proxy (keys rules) data ->
  exists v, validate host data (Some rules) w = (Normal v, w).
Proof.
  intros Hquiet Hhost Hdata.
  destruct (validate_quiet_run host data rules w Hquiet Hhost Hdata)
    as (log & _ & Hrun).
  eauto.
Qed.

(** X17. With rules that neither throw nor change the world, no Proxy
    among the values of the declared fields, and a host that defines
    [File] when the module takes it for a browser, the order in which the
    fields are declared makes no difference to the result. *)
Theorem validate_field_order_irrelevant data rules rules' w :
  Permutation rules rules' ->
  NoDup (keys rules) ->
  all_quiet rules ->
  provides_File host ->
  no_Proxy (keys rules) data ->
  validate host data (Some rules) w = validate host data (Some rules') w.
Proof.
  intros Hperm Hnodup Hquiet Hhost Hdata.
  assert (Hquiet' : all_quiet rules').
  { intros f declared Hin. apply (Hquiet f declared).
    apply (Permutation_in _ (Permutation_sym Hperm)). exact Hin. }
  assert (Hdata' : no_Proxy (keys rules') data).
  { intros f Hf. apply Hdata. revert Hf. unfold keys.
    apply Permutation_in. symmetry. apply Permutation_map. exact Hperm. }
  destruct (validate_quiet_run host data rules w Hquiet Hhost Hdata)
    as (log & Hlog & ->).
  destruct (validate_quiet_run host data rules' w Hquiet' Hhost Hdata')
    as (log' & Hlog' & ->).
  pose proof (fun g => failures_of_permutation host data rules rules' w
                         log log' g Hperm Hnodup Hquiet Hlog Hlog')
    as Hsame.
  set (v := fold_left record_check log {| errors := ∅; valid := true |}).
  set (v' := fold_left record_check log' {| errors := ∅; valid := true |}).
  assert (Herrors : errors v = errors v').
  { apply map_eq. intros g. unfold v, v'. rewrite !errors_record_checks.
    rewrite (Hsame g). reflexivity. }
  assert (Hvalid : valid v = valid v').
  { assert (Hv : valid v = true <-> valid v' = true).
    { unfold v, v'. rewrite !valid_iff_no_failure. cbn [valid].
      split; intros [_ Hnone]; (split; [reflexivity|]); intros g;
        [rewrite <- (Hsame g) | rewrite (Hsame g)]; apply Hnone. }
    destruct (valid v), (valid v'); try reflexivity.
    - symmetry. apply Hv. reflexivity.
    - apply Hv. reflexivity. }
  destruct v as [ev vv], v' as [ev' vv']. cbn in Herrors, Hvalid.
  subst. reflexivity.
Qed.

End ValidatorMore.

(** * Further sample runs *)

Lemma normalizeValue_tag_known_witness :
  In (type {| type := "undefined"; value := document_all |}) known_tags
  /\ (type {| type := "undefined"; value := document_all |}
      = "undefined"%string
      <-> exists id, document_all = VHTMLDDA id).
Proof.
  apply (normalizeValue_tag_known browser document_all). reflexivity.
Defined.

Lemma normalizeValue_nullish_iff_witness :
  type {| type := "boolean"; value := VBoolean false |} = "nullish"%string
  <-> absent (VBoolean false).
Proof.
  apply (normalizeValue_nullish_iff node (VBoolean false)). reflexivity.
Defined.

Lemma normalizeValue_classifies_witness :
  normalizeValue browser array_proxy
  = Normal {| type := "array"; value := array_proxy |}
  /\ Array_isArray array_proxy = Normal true.
Proof.
  assert (Hnv : normalizeValue browser array_proxy
                = Normal {| type := "array"; value := array_proxy |})
    by reflexivity.
  split; [exact Hnv|].
  destruct (normalizeValue_classifies browser array_proxy _ Hnv)
    as (_ & _ & _ & Harray).
  apply Harray. reflexivity.
Defined.

Lemma normalizeValue_keeps_value_witness :
  value {| type := "array"; value := sample_array |} = sample_array.
Proof.
  apply (normalizeValue_keeps_value browser sample_array
           {| type := "array"; value := sample_array |}).
  - reflexivity.
  - discriminate.
  - discriminate.
  - intros [H | H]; discriminate H.
Defined.

Lemma normalizeValue_same_on_hosts_witness :
  normalizeValue node array_proxy = normalizeValue browser array_proxy.
Proof.
  apply normalizeValue_same_on_hosts;
    [intros [=] | intros _; reflexivity | reflexivity].
Defined.


Lemma normalizeValue_number_value_witness :
  normalizeValue node (VNumber negative_zero)
  = Normal {| type := "number"; value := VNumber (S754_zero false) |}.
Proof. apply (normalizeValue_number_value node negative_zero). reflexivity. Defined.

Lemma normalizeValue_blank_string_witness :
  normalizeValue node (VString [32%N; 9%N; 160%N])
  = Normal {| type := "string"; value := VString [] |}.
Proof.
  apply (proj2 (normalizeValue_blank_string node [32%N; 9%N; 160%N])).
  repeat constructor.
Defined.

Lemma normalizeValue_ignores_surrounding_space_witness :
  normalizeValue node (VString ([32%N] ++ js "Ada" ++ [9%N; 32%N]))
  = normalizeValue node (VString (js "Ada")).
Proof.
  apply normalizeValue_ignores_surrounding_space; repeat constructor.
Defined.

Lemma validate_valid_iff_no_errors_witness :
  errors {| errors := ∅; valid := true |} = ∅
  /\ valid {| errors := ∅; valid := true |} = true.
Proof.
  destruct (validate_valid_iff_no_errors node sample_data passing_rules []
              {| errors := ∅; valid := true |} [])
    as [Herrors Hvalid].
  - vm_compute. reflexivity.
  - split; [apply Herrors; reflexivity|].
    apply Hvalid; [|reflexivity]. intros [H | []]. discriminate H.
Defined.

Lemma validate_reads_declared_fields_only_witness :
  validate node sample_data (Some sample_rules) []
  = validate node sample_data_more (Some sample_rules) [].
Proof.
  apply validate_reads_declared_fields_only.
  intros f [<- | [<- | []]]; vm_compute; reflexivity.
Defined.

Lemma validate_missing_same_as_null_witness :
  validate node (<[js "email" := VNull]> sample_data) (Some sample_rules) []
  = validate node (delete (js "email") sample_data) (Some sample_rules) []
  /\ validate node (<[js "email" := VUndefined]> sample_data)
       (Some sample_rules) []
     = validate node (delete (js "email") sample_data) (Some sample_rules) [].
Proof.
  apply validate_missing_same_as_null.
  unfold inherited. vm_compute. intros H. exact (H eq_refl).
Defined.

Lemma validate_ignores_surrounding_space_witness :
  validate node (<[js "name" := VString ([32%N] ++ js "Ada" ++ [32%N])]>
                   sample_data) (Some sample_rules) []
  = validate node (<[js "name" := VString (js "Ada")]> sample_data)
      (Some sample_rules) [].
Proof.
  apply validate_ignores_surrounding_space; repeat constructor.
Defined.

Lemma validate_app_witness :
  validate node sample_data (Some (name_rules ++ email_rules)) []
  = (v1 ← validate node sample_data (Some name_rules);
     v2 ← validate node sample_data (Some email_rules);
     mret (merge v1 v2)) [].
Proof.
  apply validate_app.
  intros f [<- | []] [H | []]. discriminate H.
Defined.


Lemma quiet_rules_quiet : all_quiet quiet_rules.
Proof.
  intros f declared [[= <- <-] | [[= <- <-] | []]];
    repeat constructor; intros nv w; eexists; reflexivity.
Qed.

Lemma sample_data_no_Proxy : no_Proxy (keys quiet_rules) sample_data.
Proof. intros f [<- | [<- | []]]; vm_compute; intros []. Qed.

Lemma validate_adds_no_effect_witness :
  exists v, validate node sample_data (Some quiet_rules) [] = (Normal v, []).
Proof.
  apply validate_adds_no_effect;
    [exact quiet_rules_quiet | intros [=] | exact sample_data_no_Proxy].
Defined.

Lemma validate_field_order_irrelevant_witness :
  validate node sample_data (Some quiet_rules) []
  = validate node sample_data (Some quiet_rules_swapped) [].
Proof.
  apply validate_field_order_irrelevant.
  - apply perm_swap.
  - constructor;
      [rewrite list_elem_of_In; intros [H | []]; discriminate H|].
    constructor; [rewrite list_elem_of_In; intros []|]. constructor.
  - exact quiet_rules_quiet.
  - intros [=].
  - exact sample_data_no_Proxy.
Defined.
